(** * httprouter: a shallow embedding of the router, its middleware chain,
      its request-parameter store and its routing tree.

    Go values are modelled as follows.
    - A call either returns or panics: [Go.result].
    - An interface or func value that may be [nil] is an [option].
    - A [map] is a [gmap]; a nil map is [None] where the code tests for it.
    - Code that mutates an object in place returns the new object. *)

From Stdlib Require Import Ascii String.
From stdpp Require Import gmap strings list.

(** ** Outcome of a Go call *)
Module Go.

(** What a panic carries: a value given to [panic], or a run-time error. *)
Inductive panic_value :=
| PanicString (msg : string)
| PanicError (err : string)
| IndexOutOfRange
| NilDereference
| UnlockOfUnlockedMutex.

Inductive result (A : Type) :=
| Return (a : A)
| Panic (v : panic_value)
| Blocked.
Arguments Return {A} a.
Arguments Panic {A} v.
Arguments Blocked {A}.

Definition bind {A B} (r : result A) (k : A -> result B) : result B :=
  match r with
  | Return a => k a
  | Panic v => Panic v
  | Blocked => Blocked
  end.

Definition returns {A} (r : result A) : Prop := exists a, r = Return a.

End Go.

Notation "'do' x <~ c ; k" := (Go.bind c (fun x => k))
(at level 10, x name, c at level 100, k at level 200).

(** ** The middleware chain (middleware.go) *)
Module Chain.
Section Chain.

(** The non-nil values of [http.Handler]. *)
Variable Handler : Type.
Variable DefaultServeMux : Handler.

(** An [http.Handler] interface value; [None] is [nil]. *)
Definition handler := option Handler.

(** A [func(http.Handler) http.Handler] value; [None] is the nil func. A
    func that is not nil is user code: called, it returns a handler, panics
    or does not come back. *)
Definition mwfunc := option (handler -> Go.result handler).

(** The middleware that returns [f h] whenever it is called with [h]. *)
Definition returning (f : handler -> handler) : mwfunc :=
  Some (fun h => Go.Return (f h)).

(** [type Middleware []func(http.Handler) http.Handler] *)
Definition Middleware := list mwfunc.

(** Calling a func value: calling nil panics, any other func does what it
    does. *)
Definition call (m : mwfunc) (h : handler) : Go.result handler :=
  match m with
  | Some f => f h
  | None => Go.Panic Go.NilDereference
  end.

(** [make(Middleware, n)]: a slice of [n] zero values. *)
Definition make (n : nat) : Middleware := replicate n None.

(** [NewMiddleware]: a nil or empty argument list gives [Middleware{}],
    anything else [append(make(Middleware, len(middleware)), middleware...)]. *)
Definition NewMiddleware (middleware : list mwfunc) : Middleware :=
  if Nat.eqb (length middleware) 0 then []
  else make (length middleware) ++ middleware.

(** The loop of [Then]: [for i := len(mw) - 1; i >= 0; i--], with
    [n = i + 1] iterations left. *)
Fixpoint Then_loop (mw : list mwfunc) (n : nat) (final : handler)
  : Go.result handler :=
  match n with
  | 0 => Go.Return final
  | S i =>
      match mw !! i with
      | None => Go.Panic Go.IndexOutOfRange
      | Some m => do final' <~ call m final; Then_loop mw i final'
      end
  end.

Definition Then (mw : Middleware) (h : handler) : Go.result handler :=
  let final := match h with
               | Some _ => h
               | None => Some DefaultServeMux
               end in
  Then_loop mw (length mw) final.

(** [Use] appends its arguments to the chain the receiver points to. *)
Definition Use (mw : Middleware) (middleware : list mwfunc) : Middleware :=
  mw ++ middleware.

(** The nested application [mw[0](mw[1](...(mw[n-1](h))...))]: the argument
    is evaluated before the func is called. *)
Fixpoint nest (mw : Middleware) (h : handler) : Go.result handler :=
  match mw with
  | [] => Go.Return h
  | m :: rest => do inner <~ nest rest h; call m inner
  end.

(** The same for middleware that return: [fs] gives what each returns. *)
Definition nest_pure (fs : list (handler -> handler)) (h : handler) : handler :=
  foldr (fun f acc => f acc) h fs.

Lemma nest_snoc (mw : Middleware) (m : mwfunc) (h : handler) :
  nest (mw ++ [m]) h = do h' <~ call m h; nest mw h'.
Proof.
  induction mw as [|a mw IH]; cbn [app nest Go.bind].
  - by destruct (call m h).
  - rewrite IH. by destruct (call m h).
Qed.

Lemma Then_loop_take (mw : Middleware) (n : nat) (final : handler) :
  n <= length mw -> Then_loop mw n final = nest (take n mw) final.
Proof.
  unfold Middleware in *.
  revert final. induction n as [|i IH]; intros final Hn; cbn [Then_loop].
  - by rewrite take_0.
  - destruct (lookup_lt_is_Some_2 mw i) as [m Hm]; [lia|].
    rewrite Hm, (take_S_r _ _ _ Hm), nest_snoc.
    destruct (call m final) as [h'| |]; cbn [Go.bind]; [|done..].
    apply IH. lia.
Qed.

Lemma Then_loop_nest (mw : Middleware) (final : handler) :
  Then_loop mw (length mw) final = nest mw final.
Proof. by rewrite Then_loop_take, firstn_all. Qed.

Lemma nest_all_funcs (fs : list (handler -> handler)) (h : handler) :
  nest (returning <$> fs) h = Go.Return (nest_pure fs h).
Proof.
  induction fs as [|f fs IH]; [done|].
  rewrite fmap_cons. cbn [nest]. rewrite IH. done.
Qed.

Lemma nest_nil_entry (k : nat) (fs : list (handler -> handler)) (h : handler) :
  nest (make (S k) ++ (returning <$> fs)) h = Go.Panic Go.NilDereference.
Proof.
  induction k as [|k IH].
  - cbn [make replicate app nest]. by rewrite nest_all_funcs.
  - change (make (S (S k))) with (None :: make (S k)).
    cbn [app nest]. by rewrite IH.
Qed.

(** C9. [Then] composes the chain around the final handler: on any chain it
    is the nested application [mw[0](mw[1](...(mw[n-1](h))...))]; when every
    entry is a func that returns, it returns the first entry applied to the
    composition of the rest, so the first-added middleware is outermost; on
    the empty chain it returns [h] itself; and [Then(nil)] is [Then] of
    [http.DefaultServeMux]. *)
Theorem Then_composes (mw : Middleware) (f : handler -> handler)
    (fs : list (handler -> handler)) (h : Handler) :
  Then mw (Some h) = nest mw (Some h) /\
  Then (returning <$> fs) (Some h) = Go.Return (nest_pure fs (Some h)) /\
  Then (returning <$> (f :: fs)) (Some h)
  = Go.Return (f (nest_pure fs (Some h))) /\
  Then [] (Some h) = Go.Return (Some h) /\
  Then mw None = nest mw (Some DefaultServeMux) /\
  Then mw None = Then mw (Some DefaultServeMux).
Proof.
  unfold Then. rewrite !Then_loop_nest, !nest_all_funcs. done.
Qed.

(** C8 (as the code behaves). For a nonempty argument list [NewMiddleware]
    returns twice as many entries as it was given: [make] already yields
    [len(middleware)] nil entries and [append] puts the arguments after
    them. [Then] on such a chain, once the middleware given have returned,
    calls a nil func. *)
Theorem NewMiddleware_nil_prefix (m : mwfunc) (ms : list mwfunc)
    (fs : list (handler -> handler)) (h : handler) :
  NewMiddleware [] = [] /\
  NewMiddleware (m :: ms) = replicate (S (length ms)) None ++ m :: ms /\
  length (NewMiddleware (m :: ms)) = 2 * length (m :: ms) /\
  NewMiddleware (m :: ms) !! 0 = Some None /\
  (fs <> [] ->
   Then (NewMiddleware (returning <$> fs)) h = Go.Panic Go.NilDereference).
Proof.
  split; [done|]. split; [done|]. split.
  { unfold NewMiddleware, make. cbn [length Nat.eqb].
    rewrite length_app, length_replicate. cbn [length]. lia. }
  split; [done|].
  intros Hfs. destruct fs as [|f0 fs]; [done|].
  unfold Then. rewrite Then_loop_nest.
  unfold NewMiddleware. rewrite length_fmap. cbn [length Nat.eqb].
  apply nest_nil_entry.
Qed.

End Chain.

Arguments returning {Handler} f.
Arguments call {Handler} m h.
Arguments make {Handler} n.
Arguments NewMiddleware {Handler} middleware.
Arguments Then_loop {Handler} mw n final.
Arguments Then {Handler} DefaultServeMux mw h.
Arguments Use {Handler} mw middleware.
Arguments nest {Handler} mw h.
Arguments nest_pure {Handler} fs h.

End Chain.

(** ** The default request-parameter store (params.go) *)
Module ParamStore.

(** An [http.Request] is known by its address; a [*http.Request] that may be
    nil is an [option request]. *)
Definition request := positive.

(** A [map[string]string] value; [None] is the nil map. *)
Abbreviation params := (option (gmap string string)).

Definition ErrRequestNil : string := "*http.Request is nil".

(** The package variables [paramsMap] and [paramsLock] ([true]: held). *)
Record store := Store {
  paramsMap : gmap request params;
  paramsLock : bool
}.

(** [make(map[*http.Request]map[string]string, 0)] and [new(sync.Mutex)]. *)
Definition init : store := Store ∅ false.

Definition Lock (s : store) : Go.result store :=
  if paramsLock s then Go.Blocked
  else Go.Return (Store (paramsMap s) true).

Definition Unlock (s : store) : Go.result store :=
  if paramsLock s then Go.Return (Store (paramsMap s) false)
  else Go.Panic Go.UnlockOfUnlockedMutex.

Definition defaultSetParams (r : option request) (p : params) (s : store)
  : Go.result store :=
  match r with
  | None => Go.Panic (Go.PanicError ErrRequestNil)
  | Some a =>
      do s1 <~ Lock s;
      let s2 :=
        match p with
        | Some _ => Store (<[a := p]> (paramsMap s1)) (paramsLock s1)
        | None => Store (delete a (paramsMap s1)) (paramsLock s1)
        end in
      Unlock s2
  end.

Definition defaultParams (r : option request) (s : store)
  : Go.result (params * store) :=
  match r with
  | None => Go.Panic (Go.PanicError ErrRequestNil)
  | Some a =>
      do s1 <~ Lock s;
      match paramsMap s1 !! a with
      | Some p => do s2 <~ Unlock s1; Go.Return (p, s2)
      | None => do s2 <~ Unlock s1; Go.Return (None, s2)
      end
  end.

(** A sequence of [defaultSetParams] calls, each on a non-nil request. *)
Fixpoint set_all (calls : list (request * params)) (s : store)
  : Go.result store :=
  match calls with
  | [] => Go.Return s
  | (a, p) :: rest => do s1 <~ defaultSetParams (Some a) p s; set_all rest s1
  end.

Lemma set_all_untouched (calls : list (request * params)) (s : store)
    (r : request) :
  paramsLock s = false -> r ∉ calls.*1 ->
  exists s', set_all calls s = Go.Return s' /\ paramsLock s' = false /\
             paramsMap s' !! r = paramsMap s !! r.
Proof.
  revert s. induction calls as [|[a p] calls IH]; intros s Hl Hr.
  - by exists s.
  - cbn in Hr. apply not_elem_of_cons in Hr as [Hne Hr].
    cbn [set_all defaultSetParams]. unfold Lock. rewrite Hl. cbn.
    destruct p as [p|]; cbn;
      match goal with
      | |- context [set_all calls ?s1] =>
          destruct (IH s1 eq_refl Hr) as (s' & Hs & Hl' & Hm')
      end;
      exists s'; (split; [exact Hs|]); (split; [exact Hl'|]);
      rewrite Hm'; cbn.
    + by apply lookup_insert_ne.
    + by apply lookup_delete_ne.
Qed.

(** C10. The default store round-trips: after [defaultSetParams(r, p)] with
    non-nil [p], [defaultParams(r)] returns [p]; after
    [defaultSetParams(r, nil)] the entry is gone and [defaultParams(r)]
    returns nil; and after any calls of [defaultSetParams] on other
    requests, starting from the initial store, [defaultParams(r)] returns
    nil. *)
Theorem store_round_trip (s : store) (r : request) (p : gmap string string)
    (calls : list (request * params)) :
  paramsLock s = false -> r ∉ calls.*1 ->
  (exists s1, defaultSetParams (Some r) (Some p) s = Go.Return s1 /\
              defaultParams (Some r) s1 = Go.Return (Some p, s1)) /\
  (exists s2, defaultSetParams (Some r) None s = Go.Return s2 /\
              paramsMap s2 !! r = None /\
              defaultParams (Some r) s2 = Go.Return (None, s2)) /\
  (exists s3, set_all calls init = Go.Return s3 /\
              defaultParams (Some r) s3 = Go.Return (None, s3)).
Proof.
  intros Hl Hr. repeat split.
  - eexists. split.
    + cbn. unfold Lock. rewrite Hl. reflexivity.
    + cbn. by rewrite lookup_insert_eq.
  - eexists. split; [|split].
    + cbn. unfold Lock. rewrite Hl. reflexivity.
    + cbn. apply lookup_delete_eq.
    + cbn. by rewrite lookup_delete_eq.
  - destruct (set_all_untouched calls init r eq_refl Hr) as (s3 & Hs & Hl3 & Hm).
    exists s3. split; [done|].
    destruct s3 as [m l]. cbn in Hl3, Hm. subst l.
    unfold defaultParams, Lock, Unlock. cbn. rewrite Hm. done.
Qed.

Definition gordon : gmap string string := {[ "name"%string := "gordon"%string ]}.

Lemma store_round_trip_witness :
  (exists s1, defaultSetParams (Some 1%positive) (Some gordon) init = Go.Return s1 /\
              defaultParams (Some 1%positive) s1 = Go.Return (Some gordon, s1)) /\
  (exists s2, defaultSetParams (Some 1%positive) None init = Go.Return s2 /\
              paramsMap s2 !! 1%positive = None /\
              defaultParams (Some 1%positive) s2 = Go.Return (None, s2)) /\
  (exists s3, set_all [(2%positive, Some gordon); (3%positive, None)] init
              = Go.Return s3 /\
              defaultParams (Some 1%positive) s3 = Go.Return (None, s3)).
Proof.
  apply (store_round_trip init 1%positive gordon
           [(2%positive, Some gordon); (3%positive, None)]).
  - reflexivity.
  - cbn. intros H. repeat (apply elem_of_cons in H as [H|H]; [discriminate H|]).
    by apply elem_of_nil in H.
Defined.

End ParamStore.

(** ** The router (router.go) *)
Module Router.

(** Calls made while a request is served, in the order they happen. *)
Inductive event :=
| EvGetValue (method path : string)
| EvCleanPath (path : string)
| EvFindCaseInsensitivePath (method path : string) (fixTrailingSlash : bool)
| EvHandler
| EvRedirect (path : string) (code : nat)
| EvMethodNotAllowed
| EvNotFound
| EvPanicHandler (v : Go.panic_value).

(** A computation that leaves a trace of calls. *)
Definition traced (A : Type) : Type := list event * Go.result A.

Definition ret {A} (a : A) : traced A := ([], Go.Return a).

Definition lift {A} (r : Go.result A) : traced A := ([], r).

Definition emit (e : event) : traced unit := ([e], Go.Return tt).

Definition tbind {A B} (m : traced A) (k : A -> traced B) : traced B :=
  match m with
  | (t1, Go.Return a) => let '(t2, r) := k a in (t1 ++ t2, r)
  | (t1, Go.Panic v) => (t1, Go.Panic v)
  | (t1, Go.Blocked) => (t1, Go.Blocked)
  end.

Notation "'run' x <~ c ; k" := (tbind c (fun x => k))
  (at level 10, x name, c at level 100, k at level 200).

(** [len(path) > 1 && path[len(path)-1] == '/'] *)
Definition has_trailing_slash (path : string) : bool :=
  (1 <? String.length path)%nat &&
  match String.get (String.length path - 1) path with
  | Some c => Ascii.eqb c "/"
  | None => false
  end.

(** The path a trailing-slash redirect points to. *)
Definition toggle_trailing_slash (path : string) : string :=
  if has_trailing_slash path
  then String.substring 0 (String.length path - 1) path
  else (path +:+ "/")%string.

Section Router.

(** The non-nil values of [http.Handler], and the default mux. *)
Variable Handler : Type.
Variable DefaultServeMux : Handler.

(** The routing tree of tree.go, and the zero node [new(node)]. *)
Variable node : Type.
Variable new_node : node.

(** [(n *node) addRoute(path, handle)] changes the node in place and has no
    result; it gives the node it leaves and whether it returned. *)
Variable addRoute :
  node -> string -> Chain.handler Handler -> node * Go.result unit.

(** [(n *node) getValue(path)] gives a handler, the parameters and the
    trailing-slash recommendation. *)
Variable getValue :
  node -> string ->
  Go.result (Chain.handler Handler * option (gmap string string) * bool).

(** [(n *node) findCaseInsensitivePath(path, fixTrailingSlash)] *)
Variable findCaseInsensitivePath : node -> string -> bool -> string * bool.

(** [CleanPath] of path.go. *)
Variable CleanPath : string -> string.

(** [http.NotFound] as a handler. *)
Variable http_NotFound : Handler.

(** What [r.handler(w, req, ps, next)] does: it returns or panics. *)
Variable run_handler :
  Chain.handler Handler -> option (gmap string string) -> Go.result unit.

(** What a handler that is not nil does when it serves the request,
    [h.ServeHTTP(w, req)]: user code, it returns, panics or does not come
    back. *)
Variable serve_handler : Handler -> Go.result unit.

Record Router := {
  trees : option (gmap string node);
  middleware : option (list (Chain.mwfunc Handler));
  RedirectTrailingSlash : bool;
  RedirectFixedPath : bool;
  HandleMethodNotAllowed : bool;
  NotFound : Chain.handler Handler;
  MethodNotAllowed : Chain.handler Handler;
  PanicHandler : option (Go.panic_value -> Go.result unit)
}.

Definition with_trees (r : Router) (t : gmap string node) : Router :=
  {| trees := Some t;
     middleware := middleware r;
     RedirectTrailingSlash := RedirectTrailingSlash r;
     RedirectFixedPath := RedirectFixedPath r;
     HandleMethodNotAllowed := HandleMethodNotAllowed r;
     NotFound := NotFound r;
     MethodNotAllowed := MethodNotAllowed r;
     PanicHandler := PanicHandler r |}.

(** [New] *)
Definition New : Router :=
  {| trees := None;
     middleware := Some [];
     RedirectTrailingSlash := true;
     RedirectFixedPath := true;
     HandleMethodNotAllowed := true;
     NotFound := None;
     MethodNotAllowed := None;
     PanicHandler := None |}.

(** [r.trees[method]]: reading a nil map gives the zero value, a nil node. *)
Definition tree_of (r : Router) (method : string) : option node :=
  match trees r with
  | Some t => t !! method
  | None => None
  end.

(** [Handle(method, path, middleware...)(handle)]: the func that [Handle]
    returns, applied to [handle]. Building the func does nothing; all of the
    body runs when it is applied. [handle] is an [http.HandlerFunc], which as
    an [http.Handler] is never the nil interface. *)
Definition Handle (r : Router) (method path : string)
    (mws : list (Chain.mwfunc Handler)) (handle : Handler)
  : Router * Go.result unit :=
  match String.get 0 path with
  | None => (r, Go.Panic Go.IndexOutOfRange)
  | Some c =>
      if negb (Ascii.eqb c "/")
      then (r, Go.Panic (Go.PanicString "path must begin with '/'"))
      else
        let t := match trees r with
                 | Some t => t
                 | None => ∅
                 end in
        let '(root, t) := match t !! method with
                          | Some root => (root, t)
                          | None => (new_node, <[method := new_node]> t)
                          end in
        match Chain.Then DefaultServeMux (Chain.NewMiddleware mws) (Some handle) with
        | Go.Return h =>
            let '(root', res) := addRoute root path h in
            (with_trees r (<[method := root']> t), res)
        | Go.Panic v => (with_trees r t, Go.Panic v)
        | Go.Blocked => (with_trees r t, Go.Blocked)
        end
  end.

(** [GET] and the other shortcuts. *)
Definition GET r path mws handle := Handle r "GET" path mws handle.
Definition POST r path mws handle := Handle r "POST" path mws handle.

(** [Lookup] *)
Definition Lookup (r : Router) (method path : string)
  : Go.result (Chain.handler Handler * option (gmap string string) * bool) :=
  match tree_of r method with
  | Some root => getValue root path
  | None => Go.Return (None, None, false)
  end.

(** The fields of [*http.Request] the router reads: [req.Method] and
    [req.URL.Path]. *)
Record Request := { Method : string; Path : string }.

(** [root.getValue(path)] on the tree of [method], as a traced call. *)
Definition call_getValue (method : string) (root : node) (path : string)
  : traced (Chain.handler Handler * option (gmap string string) * bool) :=
  run _ <~ emit (EvGetValue method path); lift (getValue root path).

(** [CleanPath(path)] as a traced call. *)
Definition call_CleanPath (path : string) : traced string :=
  run _ <~ emit (EvCleanPath path); ret (CleanPath path).

(** [root.findCaseInsensitivePath(path, fix)] as a traced call. *)
Definition call_findCaseInsensitivePath (method : string) (root : node)
    (path : string) (fix_slash : bool) : traced (string * bool) :=
  run _ <~ emit (EvFindCaseInsensitivePath method path fix_slash);
  ret (findCaseInsensitivePath root path fix_slash).

(** The first block of [ServeHTTP], on the tree of the request's method.
    [true]: the request is answered and [ServeHTTP] returns. *)
Definition serve_method (r : Router) (req : Request) : traced bool :=
  match tree_of r (Method req) with
  | Some root =>
      let path := Path req in
      run found <~ call_getValue (Method req) root path;
      let '(next, ps, tsr) := found in
      match next with
      | Some _ =>
          run next <~
            match middleware r with
            | None => lift (Go.Panic Go.NilDereference)
            | Some mw =>
                if (0 <? length mw)%nat
                then lift (Chain.Then DefaultServeMux mw next)
                else ret next
            end;
          run _ <~ emit EvHandler;
          run _ <~ lift (run_handler next ps);
          ret true
      | None =>
          if negb (String.eqb (Method req) "CONNECT") && negb (String.eqb path "/")
          then
            let code := if negb (String.eqb (Method req) "GET") then 307 else 301 in
            if tsr && RedirectTrailingSlash r
            then
              run _ <~ emit (EvRedirect (toggle_trailing_slash path) code);
              ret true
            else if RedirectFixedPath r
            then
              run cleaned <~ call_CleanPath path;
              run fixed <~
                call_findCaseInsensitivePath (Method req) root cleaned
                  (RedirectTrailingSlash r);
              let '(fixedPath, found) := fixed in
              if found
              then run _ <~ emit (EvRedirect fixedPath code); ret true
              else ret false
            else ret false
          else ret false
      end
  | None => ret false
  end.

(** The loop [for method := range r.trees] of the 405 block; [order] is the
    order in which [range] yields the keys. [true]: a handler exists under
    another method and the request is answered, by [r.MethodNotAllowed] when
    it is set and by [http.Error], which returns, when it is not. *)
Fixpoint serve_405 (r : Router) (req : Request) (order : list string)
  : traced bool :=
  match order with
  | [] => ret false
  | method :: rest =>
      if String.eqb method (Method req) then serve_405 r req rest
      else
        match tree_of r method with
        | None => lift (Go.Panic Go.NilDereference)
        | Some root =>
            run found <~ call_getValue method root (Path req);
            let '(handle, _, _) := found in
            match handle with
            | Some _ =>
                run _ <~ emit EvMethodNotAllowed;
                run _ <~
                  lift (match MethodNotAllowed r with
                        | Some f => serve_handler f
                        | None => Go.Return tt
                        end);
                ret true
            | None => serve_405 r req rest
            end
        end
  end.

(** The 404 block: the router's middleware around [r.NotFound] or
    [http.NotFound], and the handler that [ThenFunc] returns serves the
    request; a nil one cannot. *)
Definition serve_404 (r : Router) : traced unit :=
  match middleware r with
  | None => lift (Go.Panic Go.NilDereference)
  | Some mw =>
      run h <~ lift (Chain.Then DefaultServeMux mw
                       (match NotFound r with
                        | Some h => Some h
                        | None => Some http_NotFound
                        end));
      match h with
      | Some h => run _ <~ emit EvNotFound; lift (serve_handler h)
      | None => lift (Go.Panic Go.NilDereference)
      end
  end.

Definition serve_body (r : Router) (req : Request) (order : list string)
  : traced unit :=
  run answered <~ serve_method r req;
  if answered then ret tt
  else
    run answered <~
      (if HandleMethodNotAllowed r then serve_405 r req order else ret false);
    if answered then ret tt else serve_404 r.

(** [ServeHTTP]: the body under the deferred [r.recv], which hands a panic
    to [r.PanicHandler] when one is set. What the panic handler does is what
    [ServeHTTP] then does: it returns, or panics in its turn. *)
Definition ServeHTTP (r : Router) (req : Request) (order : list string)
  : traced unit :=
  match serve_body r req order with
  | (t, Go.Panic v) =>
      match PanicHandler r with
      | Some recover => (t ++ [EvPanicHandler v], recover v)
      | None => (t, Go.Panic v)
      end
  | other => other
  end.

(** An event other than a canonicalization or a correction, whose path, if
    it is a match attempt, is the request's own. *)
Definition plain (req : Request) (e : event) : Prop :=
  match e with
  | EvGetValue _ p => p = Path req
  | EvCleanPath _ | EvFindCaseInsensitivePath _ _ _ => False
  | _ => True
  end.

(** The traces [ServeHTTP] can leave: a match attempt on the raw path first,
    then at most one canonicalization, directly followed by the correction
    of its result, then plain events only. *)
Inductive shape (r : Router) (req : Request) : list event -> Prop :=
| shape_plain t :
    Forall (plain req) t -> shape r req t
| shape_fixed t :
    Forall (plain req) t ->
    shape r req
      (EvGetValue (Method req) (Path req)
       :: EvCleanPath (Path req)
       :: EvFindCaseInsensitivePath (Method req) (CleanPath (Path req))
            (RedirectTrailingSlash r)
       :: t).

Lemma shape_app r req t1 t2 :
  shape r req t1 -> Forall (plain req) t2 -> shape r req (t1 ++ t2).
Proof.
  intros [t H|t H] H2.
  - apply shape_plain. by apply Forall_app.
  - cbn. apply shape_fixed. by apply Forall_app.
Qed.

Lemma tbind_fst {A B} (m : traced A) (k : A -> traced B) :
  (tbind m k).1 = m.1 ++ match m.2 with
                         | Go.Return a => (k a).1
                         | _ => []
                         end.
Proof.
  destruct m as [t [a|v|]]; cbn; [by destruct (k a) | by rewrite app_nil_r..].
Qed.

Lemma plain_ret {A} req (a : A) : Forall (plain req) (ret a).1.
Proof. constructor. Qed.

Lemma plain_lift {A} req (res : Go.result A) : Forall (plain req) (lift res).1.
Proof. constructor. Qed.

Lemma plain_emit req e : plain req e -> Forall (plain req) (emit e).1.
Proof. by repeat constructor. Qed.

Lemma plain_tbind {A B} req (m : traced A) (k : A -> traced B) :
  Forall (plain req) m.1 -> (forall a, Forall (plain req) (k a).1) ->
  Forall (plain req) (tbind m k).1.
Proof.
  intros Hm Hk. rewrite tbind_fst. apply Forall_app. split; [done|].
  destruct m.2; [apply Hk | constructor..].
Qed.

Ltac plain_steps :=
  repeat first
    [ apply plain_ret | apply plain_lift | (apply plain_emit; done)
    | apply plain_tbind; [|intros ?]
    | progress case_match ].

Lemma call_getValue_fst method root path :
  (call_getValue method root path).1 = [EvGetValue method path].
Proof. unfold call_getValue. cbn. by destruct (getValue root path). Qed.

Lemma call_getValue_snd method root path :
  (call_getValue method root path).2 = getValue root path.
Proof. unfold call_getValue. cbn. by destruct (getValue root path). Qed.

Lemma serve_method_shape r req :
  shape r req (serve_method r req).1 /\
  (forall root, tree_of r (Method req) = Some root ->
     head (serve_method r req).1 = Some (EvGetValue (Method req) (Path req))).
Proof.
  unfold serve_method.
  destruct (tree_of r (Method req)) as [root|];
    [|split; [apply shape_plain; constructor | intros ? [=]]].
  rewrite tbind_fst, call_getValue_fst, call_getValue_snd.
  split; [|done]. cbn [app].
  destruct (getValue root (Path req)) as [[[next ps] tsr]|v|];
    [|apply shape_plain; by repeat constructor..].
  destruct next as [h|].
  { apply shape_plain. constructor; [done|]. plain_steps. }
  destruct (negb (Method req =? "CONNECT")%string && negb (Path req =? "/")%string);
    [|apply shape_plain; by repeat constructor].
  destruct (tsr && RedirectTrailingSlash r).
  { apply shape_plain. constructor; [done|]. plain_steps. }
  destruct (RedirectFixedPath r); [|apply shape_plain; by repeat constructor].
  unfold call_CleanPath, call_findCaseInsensitivePath. cbn.
  destruct (findCaseInsensitivePath _ _ _) as [fixedPath found].
  destruct found; cbn; apply shape_fixed; by repeat constructor.
Qed.

Lemma serve_405_plain r req order :
  Forall (plain req) (serve_405 r req order).1.
Proof.
  induction order as [|method rest IH]; cbn [serve_405]; [constructor|].
  destruct (method =? Method req)%string; [done|].
  destruct (tree_of r method) as [root|]; [|constructor].
  apply plain_tbind; [rewrite call_getValue_fst; by repeat constructor|].
  intros [[handle ps] tsr]. destruct handle; [plain_steps | done].
Qed.

Lemma serve_404_plain r req : Forall (plain req) (serve_404 r).1.
Proof. unfold serve_404. plain_steps. Qed.

Lemma serve_body_shape r req order :
  shape r req (serve_body r req order).1 /\
  (forall root, tree_of r (Method req) = Some root ->
     head (serve_body r req order).1 = Some (EvGetValue (Method req) (Path req))).
Proof.
  destruct (serve_method_shape r req) as [Hs Hh].
  unfold serve_body.
  destruct (serve_method r req) as [t [answered|v|]] eqn:Hm; cbn in *; [|done..].
  assert (Hhead : forall t', forall root, tree_of r (Method req) = Some root ->
            head (t ++ t') = Some (EvGetValue (Method req) (Path req))).
  { intros t' root Hr. specialize (Hh root Hr). by destruct t. }
  destruct answered; cbn.
  { rewrite app_nil_r. done. }
  pose proof (serve_405_plain r req order) as H405.
  pose proof (serve_404_plain r req) as H404.
  destruct (HandleMethodNotAllowed r); cbn.
  - destruct (serve_405 r req order) as [t5 [a5|v5|]]; cbn in *;
      [|split; [by apply shape_app | by apply Hhead]..].
    destruct a5; cbn.
    + rewrite app_nil_r. split; [by apply shape_app | by apply Hhead].
    + destruct (serve_404 r) as [t4 r4]; cbn in *.
      split; [|by apply Hhead].
      apply shape_app; [done|]. by apply Forall_app.
  - destruct (serve_404 r) as [t4 r4]; cbn in *.
    split; [by apply shape_app | by apply Hhead].
Qed.

Lemma ServeHTTP_shape r req order :
  shape r req (ServeHTTP r req order).1 /\
  (forall root, tree_of r (Method req) = Some root ->
     head (ServeHTTP r req order).1 = Some (EvGetValue (Method req) (Path req))).
Proof.
  destruct (serve_body_shape r req order) as [Hs Hh].
  unfold ServeHTTP.
  destruct (serve_body r req order) as [t [a|v|]]; cbn in *; [done| |done].
  destruct (PanicHandler r) as [recover|]; cbn; [|done].
  split; [apply shape_app; [done | repeat constructor]|].
  intros root Hr. specialize (Hh root Hr). by destruct t.
Qed.

Lemma shape_plain_only (req : Request) (t : list event) (i : nat) (e : event) :
  Forall (plain req) t -> t !! i = Some e -> plain req e.
Proof. intros Hall Hi. by apply (Forall_lookup_1 _ _ _ _ Hall Hi). Qed.

(** C5. Whatever [ServeHTTP] does for a request, every match attempt
    ([getValue]) is made on the request's own, uncleaned path, and when the
    method has a tree the attempt on it is the first call of all; [CleanPath]
    is called at most once, after that attempt, on the request's path, and its
    result goes to [findCaseInsensitivePath], which is called with nothing
    else. *)
Theorem raw_path_matched_first (r : Router) (req : Request) (order : list string) :
  let t := (ServeHTTP r req order).1 in
  (forall i m p, t !! i = Some (EvGetValue m p) -> p = Path req) /\
  (forall root, tree_of r (Method req) = Some root ->
     t !! 0 = Some (EvGetValue (Method req) (Path req))) /\
  (forall i p, t !! i = Some (EvCleanPath p) ->
     p = Path req /\ i = 1 /\
     t !! 0 = Some (EvGetValue (Method req) (Path req)) /\
     t !! 2 = Some (EvFindCaseInsensitivePath (Method req)
                      (CleanPath (Path req)) (RedirectTrailingSlash r))) /\
  (forall i m p b, t !! i = Some (EvFindCaseInsensitivePath m p b) ->
     i = 2 /\ p = CleanPath (Path req) /\
     t !! 1 = Some (EvCleanPath (Path req))).
Proof.
  intros t. destruct (ServeHTTP_shape r req order) as [Hs Hh].
  fold t in Hs, Hh. clearbody t.
  split; [|split; [|split]].
  - intros i m p Hi. destruct Hs as [t Hall|t Hall].
    + apply (shape_plain_only req _ _ _ Hall Hi).
    + destruct i as [|[|[|i]]]; cbn in Hi; try congruence.
      apply (shape_plain_only req _ _ _ Hall Hi).
  - intros root Hr. specialize (Hh root Hr). by destruct t.
  - intros i p Hi. destruct Hs as [t Hall|t Hall].
    + destruct (shape_plain_only req _ _ _ Hall Hi).
    + destruct i as [|[|[|i]]]; cbn in Hi.
      * discriminate Hi.
      * injection Hi as <-. done.
      * discriminate Hi.
      * destruct (shape_plain_only req _ _ _ Hall Hi).
  - intros i m p b Hi. destruct Hs as [t Hall|t Hall].
    + destruct (shape_plain_only req _ _ _ Hall Hi).
    + destruct i as [|[|[|i]]]; cbn in Hi.
      * discriminate Hi.
      * discriminate Hi.
      * injection Hi as <- <- <-. done.
      * destruct (shape_plain_only req _ _ _ Hall Hi).
Qed.

(** C2 (as the code behaves). For every nonempty pattern whose first byte is
    not a slash, the registration func panics with the message
    [path must begin with '/'] before it touches the router: the failure
    reaches the caller at once, as a panic and not as a returned value. *)
Theorem Handle_rejects_missing_slash (r : Router) (method path : string)
    (mws : list (Chain.mwfunc Handler)) (handle : Handler) (c : ascii) :
  String.get 0 path = Some c -> c <> "/"%char ->
  Handle r method path mws handle
  = (r, Go.Panic (Go.PanicString "path must begin with '/'")).
Proof.
  intros Hc Hne. unfold Handle. rewrite Hc.
  destruct (Ascii.eqb_spec c "/"); [done|]. done.
Qed.

(** C4 (as the code behaves). Registering the empty pattern reads [path[0]]
    of the empty string: the call stops with the run-time error
    [index out of range], not with the pattern check's own panic. The router
    is left as it was. *)
Theorem Handle_empty_pattern (r : Router) (method : string)
    (mws : list (Chain.mwfunc Handler)) (handle : Handler) :
  Handle r method "" mws handle = (r, Go.Panic Go.IndexOutOfRange) /\
  Handle r method "" mws handle
  <> (r, Go.Panic (Go.PanicString "path must begin with '/'")).
Proof. split; [reflexivity | discriminate]. Qed.

Lemma Lookup_no_tree (r : Router) (method path : string) :
  tree_of r method = None ->
  Lookup r method path = Go.Return (None, None, false).
Proof. intros H. unfold Lookup. by rewrite H. Qed.

Lemma Lookup_New (method path : string) :
  Lookup New method path = Go.Return (None, None, false).
Proof. reflexivity. Qed.

End Router.

Arguments trees {Handler node} r.
Arguments middleware {Handler node} r.
Arguments New {Handler node}.
Arguments tree_of {Handler node} r method.
Arguments Handle {Handler} DefaultServeMux {node} new_node addRoute r method path mws handle.
Arguments Lookup {Handler node} getValue r method path.
Arguments ServeHTTP {Handler} DefaultServeMux {node} getValue
  findCaseInsensitivePath CleanPath http_NotFound run_handler serve_handler
  r req order.

End Router.

(** ** The path canonicalizer (path.go) *)
Module Clean.

Definition slash : ascii := "/"%char.
Definition dot : list ascii := ["."%char].
Definition dotdot : list ascii := ["."%char; "."%char].

(** The segments between slashes; consecutive slashes give empty segments. *)
Fixpoint segments (p : list ascii) : list (list ascii) :=
  match p with
  | [] => [[]]
  | c :: rest =>
      if Ascii.eqb c slash then [] :: segments rest
      else match segments rest with
           | seg :: segs => (c :: seg) :: segs
           | [] => [[c]]
           end
  end.

(** One segment against the segments resolved so far, the last one first:
    an empty segment (a repeated slash) and [.] are dropped, [..] pops the
    previous resolved segment and does nothing at the root, anything else is
    kept. *)
Definition resolve_step (resolved : list (list ascii)) (seg : list ascii)
  : list (list ascii) :=
  if bool_decide (seg = []) || bool_decide (seg = dot) then resolved
  else if bool_decide (seg = dotdot) then tail resolved
  else seg :: resolved.

Definition resolve (segs : list (list ascii)) : list (list ascii) :=
  reverse (foldl resolve_step [] segs).

(** Whether the input has a trailing slash. *)
Definition has_trailing (p : list ascii) : bool :=
  bool_decide (last p = Some slash).

(** The canonical path of the resolved segments: it starts with a slash,
    has one slash between segments, and keeps a single trailing slash when
    [trailing] is set, except when the whole path is the root. *)
Definition render (resolved : list (list ascii)) (trailing : bool) : list ascii :=
  match resolved with
  | [] => [slash]
  | _ => concat (map (cons slash) resolved) ++ (if trailing then [slash] else [])
  end.

Definition clean_bytes (p : list ascii) : list ascii :=
  render (resolve (segments p)) (has_trailing p).

(** Modelled from the spec: [CleanPath] of path.go, which is not among the
    sources. Section 4.4: [clean] collapses consecutive slashes, removes [.]
    segments, lets [..] pop the previous resolved segment (a no-op at the
    root), preserves a single trailing slash if and only if the input had one
    (except when the whole resolved path is the root), and always yields a
    path that starts with a slash. *)
Definition clean (p : string) : string :=
  string_of_list_ascii (clean_bytes (list_ascii_of_string p)).

(** A segment that resolution keeps. *)
Definition kept (seg : list ascii) : Prop :=
  seg <> [] /\ seg <> dot /\ seg <> dotdot /\ slash ∉ seg.

Lemma segments_no_slash (p : list ascii) :
  Forall (fun seg => slash ∉ seg) (segments p).
Proof.
  induction p as [|c rest IH]; cbn [segments].
  - repeat constructor. apply not_elem_of_nil.
  - destruct (Ascii.eqb_spec c slash) as [->|Hc].
    + constructor; [apply not_elem_of_nil | done].
    + destruct (segments rest) as [|seg segs].
      * repeat constructor. intros [?|H]%elem_of_cons; [done|].
        by apply elem_of_nil in H.
      * inversion IH as [|? ? Hseg Hsegs]; subst. constructor; [|done].
        intros [?|?]%elem_of_cons; done.
  Qed.

Lemma resolve_step_kept (resolved : list (list ascii)) (seg : list ascii) :
  slash ∉ seg -> Forall kept resolved -> Forall kept (resolve_step resolved seg).
Proof.
  intros Hseg Hres. unfold resolve_step.
  destruct (bool_decide_reflect (seg = [])); [done|].
  destruct (bool_decide_reflect (seg = dot)); [done|]. cbn.
  destruct (bool_decide_reflect (seg = dotdot)).
  - destruct resolved; [done|]. by inversion Hres.
  - by constructor.
Qed.

Lemma foldl_resolve_kept (segs resolved : list (list ascii)) :
  Forall (fun seg => slash ∉ seg) segs -> Forall kept resolved ->
  Forall kept (foldl resolve_step resolved segs).
Proof.
  revert resolved. induction segs as [|seg segs IH]; intros resolved Hs Hr; [done|].
  inversion Hs; subst. cbn. apply IH; [done|]. by apply resolve_step_kept.
Qed.

Lemma resolve_kept (p : list ascii) : Forall kept (resolve (segments p)).
Proof.
  unfold resolve. apply Forall_reverse, foldl_resolve_kept; [|constructor].
  apply segments_no_slash.
Qed.

Lemma segments_one (seg : list ascii) : slash ∉ seg -> segments seg = [seg].
Proof.
  induction seg as [|c seg IH]; intros Hs; [done|].
  apply not_elem_of_cons in Hs as [Hc Hs]. cbn [segments].
  destruct (Ascii.eqb_spec c slash); [done|]. by rewrite IH.
Qed.

Lemma segments_app_slash (seg rest : list ascii) :
  slash ∉ seg -> segments (seg ++ slash :: rest) = seg :: segments rest.
Proof.
  induction seg as [|c seg IH]; intros Hs.
  - cbn. by destruct (Ascii.eqb_spec slash slash).
  - apply not_elem_of_cons in Hs as [Hc Hs]. cbn [app segments].
    destruct (Ascii.eqb_spec c slash); [done|]. by rewrite IH.
Qed.

Lemma segments_joined (seg : list ascii) (segs : list (list ascii)) (trailing : bool) :
  slash ∉ seg -> Forall kept segs ->
  segments (seg ++ concat (map (cons slash) segs)
              ++ (if trailing then [slash] else []))
  = (seg :: segs) ++ (if trailing then [[]] else []).
Proof.
  revert seg. induction segs as [|seg' segs IH]; intros seg Hs Hk.
  - cbn [map concat app]. destruct trailing.
    + by rewrite segments_app_slash.
    + rewrite app_nil_r. by apply segments_one.
  - inversion Hk as [|? ? (_ & _ & _ & Hs') Hk']; subst.
    cbn [map concat]. rewrite <- !app_assoc. cbn [app].
    rewrite segments_app_slash by done. by rewrite IH.
Qed.

Lemma foldl_resolve_all_kept (segs resolved : list (list ascii)) :
  Forall kept segs -> foldl resolve_step resolved segs = reverse segs ++ resolved.
Proof.
  revert resolved. induction segs as [|seg segs IH]; intros resolved Hk; [done|].
  inversion Hk as [|? ? (H1 & H2 & H3 & _) Hk']; subst. cbn [foldl].
  rewrite IH by done. unfold resolve_step.
  rewrite !bool_decide_eq_false_2 by done. cbn [orb].
  by rewrite reverse_cons, <- app_assoc.
Qed.

Lemma last_joined (seg : list ascii) (segs : list (list ascii)) :
  Forall kept (seg :: segs) ->
  last (concat (map (cons slash) (seg :: segs))) <> Some slash.
Proof.
  revert seg. induction segs as [|seg' segs IH]; intros seg Hk.
  - inversion Hk as [|? ? (Hne & _ & _ & Hs) _]; subst.
    cbn [map concat]. rewrite app_nil_r.
    destruct seg as [|c seg] using rev_ind; [done|].
    rewrite app_comm_cons, last_snoc. intros [= ->].
    apply Hs, elem_of_app. right. by apply list_elem_of_singleton.
  - inversion Hk; subst. specialize (IH seg' ltac:(done)).
    change (concat (map (cons slash) (seg :: seg' :: segs)))
      with ((slash :: seg) ++ concat (map (cons slash) (seg' :: segs))).
    rewrite last_app.
    destruct (last (concat (map (cons slash) (seg' :: segs)))) eqn:Hl; [done|].
    apply last_None in Hl. discriminate Hl.
Qed.

Lemma clean_bytes_idempotent (p : list ascii) :
  clean_bytes (clean_bytes p) = clean_bytes p.
Proof.
  unfold clean_bytes at 2 3.
  pose proof (resolve_kept p) as Hk.
  destruct (resolve (segments p)) as [|seg segs] eqn:Hres; [done|].
  set (trailing := has_trailing p).
  assert (Hsegs : segments (render (seg :: segs) trailing)
                  = [] :: (seg :: segs) ++ (if trailing then [[]] else [])).
  { inversion Hk as [|? ? (_ & _ & _ & Hs) Hk']; subst.
    unfold render. cbn [map concat]. rewrite <- app_assoc. cbn [app segments].
    destruct (Ascii.eqb_spec slash slash); [|done].
    by rewrite (segments_joined seg segs trailing). }
  assert (Htr : has_trailing (render (seg :: segs) trailing) = trailing).
  { unfold has_trailing, render. destruct trailing.
    - rewrite last_snoc. by apply bool_decide_eq_true_2.
    - rewrite app_nil_r. apply bool_decide_eq_false_2. by apply last_joined. }
  unfold clean_bytes. rewrite Hsegs, Htr. f_equal.
  unfold resolve.
  change (foldl resolve_step [] ([] :: ?l)) with (foldl resolve_step [] l).
  rewrite foldl_app, (foldl_resolve_all_kept _ _ Hk), app_nil_r.
  destruct trailing; cbn [foldl];
    [change (resolve_step ?l []) with l|]; by rewrite reverse_involutive.
Qed.

(** C6. Canonicalization is idempotent, and the path of the specification's
    example, with a repeated slash, a [..] and a final [.], cleans to
    [/a/c]. *)
Theorem clean_idempotent (p : string) :
  clean (clean p) = clean p /\
  clean "/a//b/../c/." = "/a/c"%string.
Proof.
  split; [|reflexivity].
  unfold clean. rewrite list_ascii_of_string_of_list_ascii.
  by rewrite clean_bytes_idempotent.
Qed.

Example clean_root_dotdot : clean "/../a/" = "/a/"%string.
Proof. reflexivity. Qed.

Example clean_relative : clean "a/b" = "/a/b"%string.
Proof. reflexivity. Qed.

Example clean_empty : clean "" = "/"%string.
Proof. reflexivity. Qed.

End Clean.

(** ** The routing tree (tree.go)

    Modelled from the spec: the node type, [addRoute] and [getValue] of
    tree.go, which is not among the sources. Sections 3, 4.1 and 4.2 of the
    specification give the data model, the inserter and the matcher; the
    convention for a catch-all value is the one of router.go's package
    comment ([/files/*filepath] matches [/files/] with [filepath = "/"], and
    [/files] does not match): the value includes the slash before it. *)
Module Tree.

(** The registration errors of section 7. *)
Inductive RegistrationError := InvalidPattern | DuplicateRoute | RouteConflict.

Inductive outcome (A : Type) :=
| Ok (a : A)
| Err (e : RegistrationError).
Arguments Ok {A} a.
Arguments Err {A} e.

(** A pattern, read token by token: a literal byte, a named parameter
    [:name], or a catch-all [/*name] together with the slash before it. *)
Inductive token :=
| Lit (c : ascii)
| Par (name : list ascii)
| Cat (name : list ascii).

Abbreviation pattern := (list token).
Abbreviation path := (list ascii).

(** Parameters in pattern order: name and value. *)
Abbreviation params := (list (list ascii * list ascii)).

Global Instance token_eq_dec : EqDecision token.
Proof. solve_decision. Defined.

Definition slash : ascii := "/"%char.
Definition colon : ascii := ":"%char.
Definition star : ascii := "*"%char.

Definition is_wild (t : token) : bool :=
  match t with
  | Lit _ => false
  | _ => true
  end.

(** The number of wildcard tokens of a pattern. *)
Definition count_wild (toks : pattern) : nat := length (filter is_wild toks).

(** *** Reading a pattern *)

(** The bytes up to the next slash, and what follows them. *)
Fixpoint span_segment (p : path) : path * path :=
  match p with
  | [] => ([], [])
  | c :: rest =>
      if Ascii.eqb c slash then ([], p)
      else let '(seg, after) := span_segment rest in (c :: seg, after)
  end.

(** A wildcard name is well formed when it is nonempty and holds no further
    wildcard sign. *)
Definition name_ok (name : list ascii) : bool :=
  negb (bool_decide (name = [])) &&
  forallb (fun c => negb (Ascii.eqb c colon) && negb (Ascii.eqb c star)) name.

(** The tokens of one path segment: literal bytes, then possibly a named
    parameter that takes the rest of the segment. A catch-all sign inside a
    segment is malformed. *)
Fixpoint segment_tokens (seg : path) : outcome pattern :=
  match seg with
  | [] => Ok []
  | c :: rest =>
      if Ascii.eqb c colon then
        if name_ok rest then Ok [Par rest] else Err InvalidPattern
      else if Ascii.eqb c star then Err InvalidPattern
      else match segment_tokens rest with
           | Ok toks => Ok (Lit c :: toks)
           | Err e => Err e
           end
  end.

(** The tokens of the segments of a pattern, each segment after its slash.
    A segment that starts with the catch-all sign must be the last one. *)
Fixpoint pattern_tokens (segs : list path) : outcome pattern :=
  match segs with
  | [] => Ok []
  | seg :: rest =>
      if bool_decide (head seg = Some star) then
        if bool_decide (rest = []) && name_ok (tail seg)
        then Ok [Cat (tail seg)]
        else Err InvalidPattern
      else
        match segment_tokens seg, pattern_tokens rest with
        | Ok toks, Ok toks' => Ok (Lit slash :: toks ++ toks')
        | Err e, _ | _, Err e => Err e
        end
  end.

Definition wild_name (t : token) : list (list ascii) :=
  match t with
  | Lit _ => []
  | Par name | Cat name => [name]
  end.

(** Modelled from the spec: the pattern syntax of sections 4.1 and 6. The
    pattern must begin with a slash, hence not be empty; wildcard names must
    be well formed and unique within the pattern; a catch-all must come
    last. *)
Definition parse (pat : string) : outcome pattern :=
  match Clean.segments (list_ascii_of_string pat) with
  | [] :: seg :: segs =>
      match pattern_tokens (seg :: segs) with
      | Ok toks =>
          if bool_decide (NoDup (toks ≫= wild_name)) then Ok toks
          else Err InvalidPattern
      | Err e => Err e
      end
  | _ => Err InvalidPattern
  end.

Definition bytes (s : string) : path := list_ascii_of_string s.

Example parse_blog :
  parse "/blog/:category/:post"
  = Ok ((Lit <$> bytes "/blog/") ++ [Par (bytes "category"); Lit slash;
                                      Par (bytes "post")]).
Proof. reflexivity. Qed.

Example parse_src :
  parse "/src/*filepath" = Ok ((Lit <$> bytes "/src") ++ [Cat (bytes "filepath")]).
Proof. reflexivity. Qed.

Example parse_bad :
  parse "" = Err InvalidPattern /\ parse "blog" = Err InvalidPattern /\
  parse "/a/:" = Err InvalidPattern /\ parse "/a/*b/c" = Err InvalidPattern /\
  parse "/:id/:id" = Err InvalidPattern /\ parse "/a*b" = Err InvalidPattern.
Proof. repeat split; reflexivity. Qed.

(** *** Matching a pattern against a path *)

(** The tokens of a pattern consume a path from the left: a literal consumes
    its byte, a named parameter the bytes up to the next slash or the end,
    which must not be empty, a catch-all everything that is left, starting
    with its slash. *)
Fixpoint consume (toks : pattern) (p : path) : option (params * path) :=
  match toks with
  | [] => Some ([], p)
  | Lit c :: toks' =>
      match p with
      | c' :: p' => if Ascii.eqb c c' then consume toks' p' else None
      | [] => None
      end
  | Par name :: toks' =>
      let '(value, after) := span_segment p in
      match value with
      | [] => None
      | _ =>
          match consume toks' after with
          | Some (ps, rest) => Some ((name, value) :: ps, rest)
          | None => None
          end
      end
  | Cat name :: toks' =>
      match p with
      | c :: _ =>
          if Ascii.eqb c slash then
            match consume toks' [] with
            | Some (ps, rest) => Some ((name, p) :: ps, rest)
            | None => None
            end
          else None
      | [] => None
      end
  end.

(** A pattern matches a path when it consumes all of it. *)
Definition pmatch (toks : pattern) (p : path) : option params :=
  match consume toks p with
  | Some (ps, []) => Some ps
  | _ => None
  end.

(** *** Nodes *)

Inductive kind := Static | Param | CatchAll.

Global Instance kind_eq_dec : EqDecision kind.
Proof. solve_decision. Defined.

Section Nodes.

(** The opaque handler reference. *)
Variable Hnd : Type.

#[local] Unset Elimination Schemes.

(** Modelled from the spec: the node type of tree.go, after section 3. A
    node has the bytes it contributes (for a wildcard node, the wildcard's
    name), its kind, its children in traversal order, the number of handlers
    in its subtree, its handler, and the bound on the parameters below it. *)
Inductive node := Node {
  segment : list ascii;
  nkind : kind;
  children : list node;
  priority : nat;
  handler : option Hnd;
  max_params : nat
}.

#[local] Set Elimination Schemes.

(** The zero node, [new(node)]: the tree before any registration. *)
Definition empty : node := Node [] Static [] 0 None 0.

(** The tokens a node stands for. *)
Definition label_of (seg : list ascii) (k : kind) : pattern :=
  match k with
  | Static => Lit <$> seg
  | Param => [Par seg]
  | CatchAll => [Cat seg]
  end.

Definition label (n : node) : pattern := label_of (segment n) (nkind n).

(** *** The matcher (section 4.2) *)

(** [seg] taken off the front of [p], byte by byte. *)
Fixpoint strip_prefix (seg : list ascii) (p : path) : option path :=
  match seg, p with
  | [], _ => Some p
  | c :: seg', c' :: p' => if Ascii.eqb c c' then strip_prefix seg' p' else None
  | _ :: _, [] => None
  end.

(** A node's segment against the input: a static segment by byte
    comparison; a parameter takes the bytes up to the next slash or the end
    and fails on an empty span; a catch-all takes the remainder, from its
    slash on. *)
Definition match_segment (seg : list ascii) (k : kind) (p : path)
  : option (params * path) :=
  match k with
  | Static =>
      match strip_prefix seg p with
      | Some rest => Some ([], rest)
      | None => None
      end
  | Param =>
      let '(value, after) := span_segment p in
      match value with
      | [] => None
      | _ => Some ([(seg, value)], after)
      end
  | CatchAll =>
      match p with
      | c :: _ => if Ascii.eqb c slash then Some ([(seg, p)], []) else None
      | [] => None
      end
  end.

(** Whether a child is the candidate for input that starts with [c]: a
    static child by its first byte, a wildcard child always. *)
Definition candidate (c : ascii) (ch : node) : bool :=
  match nkind ch with
  | Static => bool_decide (head (segment ch) = Some c)
  | _ => true
  end.

(** The first candidate among the children, walked into by [walk]. *)
Fixpoint first_candidate {A} (walk : node -> option A) (c : ascii)
    (cs : list node) : option A :=
  match cs with
  | [] => None
  | ch :: cs' => if candidate c ch then walk ch else first_candidate walk c cs'
  end.

(** Modelled from the spec: [getValue] of tree.go, after section 4.2. It
    gives the handler and the parameters of a path, if a node with a handler
    is reached with the path fully consumed. *)
Fixpoint getValue (n : node) (p : path) : option (Hnd * params) :=
  match n with
  | Node seg k cs _ hd _ =>
      match match_segment seg k p with
      | None => None
      | Some (ps, rest) =>
          match rest with
          | [] => match hd with
                  | Some h => Some (h, ps)
                  | None => None
                  end
          | c :: _ =>
              match first_candidate (fun ch => getValue ch rest) c cs with
              | Some (h, ps') => Some (h, ps ++ ps')
              | None => None
              end
          end
      end
  end.

(** The path with its single trailing slash removed, or with one added. *)
Definition toggle (p : path) : path :=
  if bool_decide (last p = Some slash) then removelast p else p ++ [slash].

Inductive MatchOutcome :=
| Matched (h : Hnd) (ps : params)
| NotFound (trailing_slash_hint : bool).

(** Modelled from the spec: the outcome of [getValue], after section 4.2.
    It is the match, or no match and the hint that the path with a single
    trailing slash added or removed reaches a handler. *)
Definition lookup (t : node) (p : string) : MatchOutcome :=
  match getValue t (bytes p) with
  | Some (h, ps) => Matched h ps
  | None => NotFound (bool_decide (is_Some (getValue t (toggle (bytes p)))))
  end.

(** *** The inserter (section 4.1) *)

(** The longest common prefix of a static segment and the literal bytes a
    pattern starts with: the prefix, the rest of the segment, the rest of
    the pattern. *)
Fixpoint lcp (seg : list ascii) (toks : pattern)
  : list ascii * list ascii * pattern :=
  match seg, toks with
  | c :: seg', Lit c' :: toks' =>
      if Ascii.eqb c c'
      then let '(common, seg_rest, toks_rest) := lcp seg' toks' in
           (c :: common, seg_rest, toks_rest)
      else ([], seg, toks)
  | _, _ => ([], seg, toks)
  end.

(** How a pattern enters a node: it does not fit a wildcard node, or it
    leaves a static node inside its segment, or it passes the node. *)
Inductive entered :=
| Mismatch
| Split (common seg_rest : list ascii) (toks_rest : pattern)
| Full (toks_rest : pattern).

Definition enter (seg : list ascii) (k : kind) (toks : pattern) : entered :=
  match k with
  | Static =>
      let '(common, seg_rest, toks_rest) := lcp seg toks in
      match seg_rest with
      | [] => Full toks_rest
      | _ => Split common seg_rest toks_rest
      end
  | Param =>
      match toks with
      | Par name :: toks_rest =>
          if bool_decide (name = seg) then Full toks_rest else Mismatch
      | _ => Mismatch
      end
  | CatchAll =>
      match toks with
      | Cat name :: toks_rest =>
          if bool_decide (name = seg) then Full toks_rest else Mismatch
      | _ => Mismatch
      end
  end.

(** A literal byte put in front of the new static node below it. *)
Definition merge_lit (c : ascii) (below : list node) : list node :=
  match below with
  | [Node seg Static cs pr hd mp] => [Node (c :: seg) Static cs pr hd mp]
  | _ => below
  end.

(** The new nodes for the rest of a pattern, as the children list of the
    node they go under: runs of literal bytes share one static node, every
    wildcard has a node of its own, the last node holds the handler. *)
Fixpoint chain (toks : pattern) (h : Hnd) : list node :=
  match toks with
  | [] => []
  | t :: toks' =>
      let hd := match toks' with [] => Some h | _ => None end in
      match t with
      | Lit c =>
          match toks' with
          | Lit _ :: _ => merge_lit c (chain toks' h)
          | _ => [Node [c] Static (chain toks' h) 1 hd (count_wild toks')]
          end
      | Par name => [Node name Param (chain toks' h) 1 hd (count_wild toks)]
      | Cat name => [Node name CatchAll (chain toks' h) 1 hd (count_wild toks)]
      end
  end.

Definition is_static (n : node) : bool :=
  match nkind n with
  | Static => true
  | _ => false
  end.

(** The rest of a pattern attached at a fork where no child takes it. With
    nothing left the node gets the handler, unless it has one. A wildcard
    needs a fork without children; literal bytes need a fork without a
    wildcard child. (Section 7 names the error of a catch-all at a fork with
    children [RouteConflict]; section 4.1 [InvalidPattern].) *)
Definition attach (n : node) (toks : pattern) (h : Hnd) : outcome node :=
  match toks with
  | [] =>
      match handler n with
      | Some _ => Err DuplicateRoute
      | None =>
          Ok (Node (segment n) (nkind n) (children n) (S (priority n))
                (Some h) (max_params n))
      end
  | t :: _ =>
      if (if is_wild t then negb (bool_decide (children n = []))
          else negb (forallb is_static (children n)))
      then Err RouteConflict
      else Ok (Node (segment n) (nkind n) (children n ++ chain toks h)
                 (S (priority n)) (handler n)
                 (max_params n `max` count_wild toks))
  end.

(** Whether a child takes a pattern that goes on with token [t]. *)
Definition accepts (t : token) (ch : node) : bool :=
  match t, nkind ch with
  | Lit c, Static => bool_decide (head (segment ch) = Some c)
  | Par name, Param => bool_decide (segment ch = name)
  | Cat name, CatchAll => bool_decide (segment ch = name)
  | _, _ => false
  end.

(** The child whose priority was just incremented moves left while its
    priority exceeds its predecessor's; [before] holds the children before
    it, the nearest first. *)
Fixpoint bubble (before : list node) (ch : node) : list node :=
  match before with
  | [] => [ch]
  | prev :: before' =>
      if (priority prev <? priority ch)%nat then bubble before' ch ++ [prev]
      else reverse before ++ [ch]
  end.

(** The children after the insertion [ins] into the one that takes [t], if
    there is one. *)
Fixpoint descend (ins : node -> outcome node) (t : token)
    (before cs : list node) : option (outcome (list node)) :=
  match cs with
  | [] => None
  | ch :: after =>
      if accepts t ch then
        Some match ins ch with
             | Ok ch' => Ok (bubble before ch' ++ after)
             | Err e => Err e
             end
      else descend ins t (ch :: before) after
  end.

(** Modelled from the spec: the walk of [addRoute] of tree.go, after
    section 4.1. A static node whose segment the pattern leaves midway is
    split: a new intermediate node takes the common prefix, the old node
    with the rest of its segment becomes its child, and the rest of the
    pattern is attached at the intermediate node. Otherwise the walk goes on
    in the child that takes the next token, whose priority grows and which
    moves left among its siblings; without such a child the rest of the
    pattern is attached here. *)
Fixpoint insert (n : node) (toks : pattern) (h : Hnd) : outcome node :=
  match n with
  | Node seg k cs pr hd mp =>
      match enter seg k toks with
      | Mismatch => Err RouteConflict
      | Split common seg_rest toks_rest =>
          attach (Node common Static [Node seg_rest Static cs pr hd mp] pr None mp)
            toks_rest h
      | Full toks_rest =>
          match toks_rest with
          | [] => attach n [] h
          | t :: _ =>
              match descend (fun ch => insert ch toks_rest h) t [] cs with
              | Some (Ok cs') =>
                  Ok (Node seg k cs' (S pr) hd (mp `max` count_wild toks_rest))
              | Some (Err e) => Err e
              | None => attach n toks_rest h
              end
          end
      end
  end.

(** Whether the tree is still the zero node. *)
Definition is_empty (t : node) : bool :=
  bool_decide (segment t = []) && bool_decide (children t = []) &&
  match handler t with
  | None => true
  | Some _ => false
  end.

(** Modelled from the spec: [addRoute] of tree.go, the registration of a
    pattern, after section 4.1. The first registration makes the tree: the
    top of the new nodes becomes the root. Every later one walks from the
    root. *)
Definition addRoute (t : node) (pat : string) (h : Hnd) : outcome node :=
  match parse pat with
  | Ok toks =>
      if is_empty t then
        match chain toks h with
        | [root] => Ok root
        | _ => Err InvalidPattern
        end
      else insert t toks h
  | Err e => Err e
  end.

(** The tree after a list of registrations, in their order. *)
Fixpoint build (t : node) (regs : list (string * Hnd)) : outcome node :=
  match regs with
  | [] => Ok t
  | (pat, h) :: regs' =>
      match addRoute t pat h with
      | Ok t' => build t' regs'
      | Err e => Err e
      end
  end.

End Nodes.

Arguments Node {Hnd} segment nkind children priority handler max_params.
Arguments segment {Hnd} n.
Arguments nkind {Hnd} n.
Arguments children {Hnd} n.
Arguments priority {Hnd} n.
Arguments handler {Hnd} n.
Arguments max_params {Hnd} n.
Arguments empty {Hnd}.
Arguments label {Hnd} n.
Arguments candidate {Hnd} c ch.
Arguments first_candidate {Hnd A} walk c cs.
Arguments getValue {Hnd} n p.
Arguments Matched {Hnd} h ps.
Arguments NotFound {Hnd} trailing_slash_hint.
Arguments lookup {Hnd} t p.
Arguments merge_lit {Hnd} c below.
Arguments chain {Hnd} toks h.
Arguments is_static {Hnd} n.
Arguments attach {Hnd} n toks h.
Arguments accepts {Hnd} t ch.
Arguments bubble {Hnd} before ch.
Arguments descend {Hnd} ins t before cs.
Arguments insert {Hnd} n toks h.
Arguments is_empty {Hnd} t.
Arguments addRoute {Hnd} t pat h.
Arguments build {Hnd} t regs.

(** *** What a tree holds, and where a path ends in it *)

Section Theory.
Context {Hnd : Type}.

Lemma node_ind' (P : node Hnd -> Prop) :
  (forall seg k cs pr hd mp, Forall P cs -> P (Node seg k cs pr hd mp)) ->
  forall n, P n.
Proof.
  intros Hnode. fix IH 1. intros [seg k cs pr hd mp]. apply Hnode.
  induction cs as [|ch cs IHcs]; constructor; [apply IH | apply IHcs].
Qed.

(** The routes of a tree: the token sequence from the root to every node
    with a handler, and that handler. *)
Fixpoint routes (n : node Hnd) : list (pattern * Hnd) :=
  match n with
  | Node seg k cs _ hd _ =>
      match hd with
      | Some h => [(label_of seg k, h)]
      | None => []
      end
      ++ (prod_map (app (label_of seg k)) id <$> flat_map routes cs)
  end.

(** The walk of [getValue], keeping the tokens of the nodes passed. *)
Fixpoint locate (n : node Hnd) (p : path) : option (pattern * Hnd * params) :=
  match n with
  | Node seg k cs _ hd _ =>
      match match_segment seg k p with
      | None => None
      | Some (ps, rest) =>
          match rest with
          | [] => match hd with
                  | Some h => Some (label_of seg k, h, ps)
                  | None => None
                  end
          | c :: _ =>
              match first_candidate (fun ch => locate ch rest) c cs with
              | Some (sub, h, ps') => Some (label_of seg k ++ sub, h, ps ++ ps')
              | None => None
              end
          end
      end
  end.

(** A fork is either a set of static children with nonempty segments and
    pairwise distinct first bytes, or a single wildcard child. *)
Definition fork_ok (cs : list (node Hnd)) : Prop :=
  (Forall (fun ch => nkind ch = Static /\ segment ch <> []) cs /\
   NoDup ((fun ch => head (segment ch)) <$> cs))
  \/ (exists ch, cs = [ch] /\ nkind ch <> Static).

#[local] Unset Elimination Schemes.

(** A well-formed tree: every fork in it is. *)
Inductive wf : node Hnd -> Prop :=
| wf_node seg k cs pr hd mp :
    fork_ok cs -> Forall wf cs -> wf (Node seg k cs pr hd mp).
#[local] Set Elimination Schemes.

Lemma routes_elem (n : node Hnd) (r : pattern * Hnd) :
  r ∈ routes n <->
  (exists h, handler n = Some h /\ r = (label n, h)) \/
  (exists ch sub h, ch ∈ children n /\ (sub, h) ∈ routes ch /\
                    r = (label n ++ sub, h)).
Proof.
  destruct n as [seg k cs pr hd mp]. cbn [routes handler children].
  unfold label. cbn [segment nkind].
  rewrite elem_of_app, list_elem_of_fmap. split.
  - intros [Hown|([sub h] & -> & Hin)].
    + left. destruct hd as [h|]; [|by apply elem_of_nil in Hown].
      apply list_elem_of_singleton in Hown. eauto.
    + right. apply list_elem_of_In, in_flat_map in Hin as (ch & Hch & Hin).
      exists ch, sub, h. by rewrite !list_elem_of_In.
  - intros [(h & -> & ->)|(ch & sub & h & Hch & Hin & ->)].
    + left. by apply list_elem_of_singleton.
    + right. exists (sub, h). split; [done|].
      apply list_elem_of_In, in_flat_map. exists ch. by rewrite <- !list_elem_of_In.
Qed.

Lemma consume_app (a b : pattern) (p : path) :
  consume (a ++ b) p =
  match consume a p with
  | Some (ps1, rest) =>
      match consume b rest with
      | Some (ps2, rest') => Some (ps1 ++ ps2, rest')
      | None => None
      end
  | None => None
  end.
Proof.
  revert p. induction a as [|t a IH]; intros p; cbn [app consume].
  - by destruct (consume b p) as [[ps2 rest']|].
  - destruct t as [c|name|name].
    + destruct p as [|c' p']; [done|]. destruct (Ascii.eqb c c'); [apply IH|done].
    + destruct (span_segment p) as [value after]. destruct value; [done|].
      rewrite IH. destruct (consume a after) as [[ps1 rest]|]; [|done].
      by destruct (consume b rest) as [[ps2 rest']|].
    + destruct p as [|c p']; [done|]. destruct (Ascii.eqb c slash); [|done].
      rewrite IH. destruct (consume a []) as [[ps1 rest]|]; [|done].
      by destruct (consume b rest) as [[ps2 rest']|].
Qed.

Lemma consume_lits (seg : list ascii) (p : path) :
  consume (Lit <$> seg) p =
  match strip_prefix seg p with
  | Some rest => Some ([], rest)
  | None => None
  end.
Proof.
  revert p. induction seg as [|c seg IH]; intros p; [done|].
  cbn [fmap list_fmap consume strip_prefix]. destruct p as [|c' p']; [done|].
  destruct (Ascii.eqb c c'); [apply IH|done].
Qed.

Lemma match_segment_consume (seg : list ascii) (k : kind) (p : path) :
  match_segment seg k p = consume (label_of seg k) p.
Proof.
  destruct k; cbn [match_segment label_of consume].
  - by rewrite consume_lits.
  - destruct (span_segment p) as [value after]. by destruct value.
  - destruct p as [|c p']; [done|]. by destruct (Ascii.eqb c slash).
Qed.

(** Every token takes at least one byte. *)
Lemma consume_nil (toks : pattern) (ps : params) (rest : path) :
  consume toks [] = Some (ps, rest) -> toks = [].
Proof. destruct toks as [|[c|name|name] toks]; cbn; [done..]. Qed.

Lemma getValue_locate (n : node Hnd) (p : path) :
  getValue n p = (fun '(_, h, ps) => (h, ps)) <$> locate n p.
Proof.
  revert p. induction n as [seg k cs pr hd mp IH] using node_ind'; intros p.
  cbn [getValue locate].
  destruct (match_segment seg k p) as [[ps rest]|]; [|done].
  destruct rest as [|c rest]; [by destruct hd|].
  assert (Hfc : first_candidate (fun ch => getValue ch (c :: rest)) c cs
                = (fun '(_, h, ps) => (h, ps)) <$>
                  first_candidate (fun ch => locate ch (c :: rest)) c cs).
  { induction cs as [|ch cs IHcs]; [done|].
    inversion IH as [|? ? Hch Hcs]; subst. cbn [first_candidate].
    destruct (candidate c ch); [apply Hch | by apply IHcs]. }
  rewrite Hfc.
  destruct (first_candidate (fun ch => locate ch (c :: rest)) c cs)
    as [[[sub h] ps']|]; done.
Qed.

Lemma first_candidate_elem {A} (walk : node Hnd -> option A) (c : ascii)
    (cs : list (node Hnd)) (a : A) :
  first_candidate walk c cs = Some a ->
  exists ch, ch ∈ cs /\ walk ch = Some a.
Proof.
  induction cs as [|ch cs IH]; cbn [first_candidate]; [done|].
  destruct (candidate c ch).
  - intros Hw. exists ch. split; [apply elem_of_cons; by left | done].
  - intros (ch' & Hin & Hw)%IH. exists ch'.
    split; [apply elem_of_cons; by right | done].
Qed.

(** What [locate] finds is a route of the tree that matches the path. *)
Lemma locate_sound (n : node Hnd) (p : path) (pat : pattern) (h : Hnd) (ps : params) :
  locate n p = Some (pat, h, ps) ->
  (pat, h) ∈ routes n /\ pmatch pat p = Some ps.
Proof.
  revert p pat h ps.
  induction n as [seg k cs pr hd mp IH] using node_ind'; intros p pat h ps.
  cbn [locate]. rewrite match_segment_consume.
  destruct (consume (label_of seg k) p) as [[ps1 rest]|] eqn:Hseg; [|done].
  destruct rest as [|c rest].
  - destruct hd as [h0|]; [|done]. intros [= <- <- <-]. split.
    + apply routes_elem. left. by exists h0.
    + unfold pmatch. by rewrite Hseg.
  - destruct (first_candidate _ c cs) as [[[sub h1] ps2]|] eqn:Hfc; [|done].
    intros [= <- <- <-].
    apply first_candidate_elem in Hfc as (ch & Hin & Hloc).
    rewrite Forall_forall in IH.
    destruct (IH ch Hin _ _ _ _ Hloc) as [Hr Hm]. split.
    + apply routes_elem. right. by exists ch, sub, h1.
    + unfold pmatch in *. rewrite consume_app, Hseg.
      destruct (consume sub (c :: rest)) as [[ps' rest']|]; [|done].
      destruct rest'; [|done]. by injection Hm as ->.
Qed.

Lemma routes_label (n : node Hnd) (pat : pattern) (h : Hnd) :
  (pat, h) ∈ routes n -> exists sub, pat = label n ++ sub.
Proof.
  intros [(h0 & _ & [= -> _])|(ch & sub & h0 & _ & _ & [= -> _])]%routes_elem.
  - exists []. by rewrite app_nil_r.
  - by exists sub.
Qed.

Lemma fork_ok_label (cs : list (node Hnd)) (ch : node Hnd) :
  fork_ok cs -> ch ∈ cs -> label ch <> [].
Proof.
  intros [[Hst _]|(ch0 & -> & Hk)] Hin.
  - rewrite Forall_forall in Hst. destruct (Hst ch Hin) as [Hkind Hseg].
    unfold label. rewrite Hkind. cbn. by destruct (segment ch).
  - apply list_elem_of_singleton in Hin as ->.
    unfold label. by destruct (nkind ch0).
Qed.

(** A child whose label takes input that starts with [c] is a candidate
    for [c]. *)
Lemma consume_candidate (ch : node Hnd) (sub : pattern) (c : ascii)
    (rest : path) (ps : params) (rest' : path) :
  label ch <> [] ->
  consume (label ch ++ sub) (c :: rest) = Some (ps, rest') ->
  candidate c ch = true.
Proof.
  unfold label, candidate. destruct (nkind ch); [|done..].
  destruct (segment ch) as [|c0 seg]; [done|]. intros _. cbn.
  destruct (Ascii.eqb_spec c0 c) as [->|]; [|done].
  intros _. by apply bool_decide_eq_true_2.
Qed.

(** At a well-formed fork the first candidate is the only one. *)
Lemma first_candidate_pick {A} (walk : node Hnd -> option A) (c : ascii)
    (cs : list (node Hnd)) (ch : node Hnd) :
  fork_ok cs -> ch ∈ cs -> candidate c ch = true ->
  first_candidate walk c cs = walk ch.
Proof.
  intros [[Hst Hnd']|(ch0 & -> & Hk)] Hin Hc.
  - induction cs as [|ch0 cs IH]; [by apply elem_of_nil in Hin|].
    inversion Hst as [|? ? [Hk0 Hs0] Hst']; subst.
    cbn [fmap list_fmap] in Hnd'. apply NoDup_cons in Hnd' as [Hnot Hnd'].
    cbn [first_candidate].
    apply elem_of_cons in Hin as [->|Hin]; [by rewrite Hc|].
    destruct (candidate c ch0) eqn:Hc0; [|by apply IH].
    exfalso. apply Hnot.
    rewrite Forall_forall in Hst'. destruct (Hst' ch Hin) as [Hkc _].
    unfold candidate in Hc, Hc0. rewrite Hkc in Hc. rewrite Hk0 in Hc0.
    apply bool_decide_eq_true_1 in Hc, Hc0. rewrite Hc0, <- Hc.
    apply list_elem_of_fmap. by exists ch.
  - apply list_elem_of_singleton in Hin as ->. cbn [first_candidate].
    unfold candidate. by destruct (nkind ch0).
Qed.

(** In a well-formed tree, a route that matches the path is the one
    [locate] finds. *)
Lemma locate_complete (n : node Hnd) (p : path) (pat : pattern) (h : Hnd)
    (ps : params) :
  wf n -> (pat, h) ∈ routes n -> pmatch pat p = Some ps ->
  locate n p = Some (pat, h, ps).
Proof.
  revert p pat h ps.
  induction n as [seg k cs pr hd mp IH] using node_ind'; intros p pat h ps Hwf Hr Hm.
  inversion Hwf as [? ? ? ? ? ? Hfork Hcs]; subst.
  cbn [locate]. rewrite match_segment_consume. unfold pmatch in Hm.
  apply routes_elem in Hr
    as [(h0 & Hh & [= -> ->])|(ch & sub & h0 & Hin & Hsub & [= -> ->])];
    cbn [handler children label segment nkind] in *; unfold label in *;
    cbn [segment nkind] in *.
  - subst hd.
    destruct (consume (label_of seg k) p) as [[ps1 rest]|]; [|done].
    destruct rest; [|done]. by injection Hm as ->.
  - rewrite consume_app in Hm.
    destruct (consume (label_of seg k) p) as [[ps1 rest]|]; [|done].
    destruct (consume sub rest) as [[ps2 rest']|] eqn:Hc; [|done].
    destruct rest'; [|done]. injection Hm as <-.
    pose proof (fork_ok_label cs ch Hfork Hin) as Hlab.
    destruct (routes_label ch sub h0 Hsub) as [sub' ->].
    destruct rest as [|c rest].
    { apply consume_nil in Hc. by destruct (label ch). }
    rewrite (first_candidate_pick _ c cs ch Hfork Hin
               (consume_candidate ch sub' c rest ps2 [] Hlab Hc)).
    rewrite Forall_forall in IH, Hcs.
    rewrite (IH ch Hin (c :: rest) (label ch ++ sub') h0 ps2 (Hcs ch Hin) Hsub).
    + done.
    + unfold pmatch. by rewrite Hc.
Qed.

(** Two routes of a well-formed tree that match one path are the same
    route. *)
Lemma routes_unambiguous (n : node Hnd) (p : path) (r1 r2 : pattern * Hnd) :
  wf n -> r1 ∈ routes n -> r2 ∈ routes n ->
  is_Some (pmatch r1.1 p) -> is_Some (pmatch r2.1 p) -> r1 = r2.
Proof.
  destruct r1 as [pat1 h1], r2 as [pat2 h2].
  intros Hwf Hr1 Hr2 [ps1 Hm1] [ps2 Hm2]. cbn in Hm1, Hm2.
  pose proof (locate_complete n p pat1 h1 ps1 Hwf Hr1 Hm1) as H1.
  pose proof (locate_complete n p pat2 h2 ps2 Hwf Hr2 Hm2) as H2.
  congruence.
Qed.

(** *** The inserter keeps the tree well formed and adds one route *)

Lemma lcp_spec (seg : list ascii) (toks : pattern) :
  let '(common, seg_rest, toks_rest) := lcp seg toks in
  seg = common ++ seg_rest /\ toks = (Lit <$> common) ++ toks_rest /\
  (forall c, head seg_rest = Some c -> head toks_rest <> Some (Lit c)).
Proof.
  revert toks. induction seg as [|c seg IH]; intros toks; cbn [lcp].
  { repeat split. intros c [=]. }
  destruct toks as [|[c'|name|name] toks]; try by (repeat split; intros ? [=]).
  destruct (Ascii.eqb_spec c c') as [<-|Hne].
  - specialize (IH toks). destruct (lcp seg toks) as [[common seg_rest] toks_rest].
    destruct IH as (-> & -> & Hhead). done.
  - repeat split. intros c0 [= ->] [= ->]. done.
Qed.

Lemma lcp_head (seg : list ascii) (toks : pattern) (c : ascii) :
  head seg = Some c -> head toks = Some (Lit c) ->
  head (lcp seg toks).1.1 = Some c.
Proof.
  destruct seg as [|c0 seg]; [done|]. destruct toks as [|t toks]; [done|].
  intros [= ->] [= ->]. cbn [lcp].
  destruct (Ascii.eqb_spec c c); [|done].
  by destruct (lcp seg toks) as [[common seg_rest] toks_rest].
Qed.

Lemma enter_full (seg : list ascii) (k : kind) (toks toks_rest : pattern) :
  enter seg k toks = Full toks_rest -> toks = label_of seg k ++ toks_rest.
Proof.
  unfold enter. destruct k.
  - pose proof (lcp_spec seg toks) as Hl.
    destruct (lcp seg toks) as [[common seg_rest] rest].
    destruct Hl as (-> & -> & _). destruct seg_rest; [|done].
    intros [= ->]. cbn. by rewrite app_nil_r.
  - destruct toks as [|[c|name|name] toks]; try done.
    case_bool_decide; [|done]. by intros [= ->]; subst.
  - destruct toks as [|[c|name|name] toks]; try done.
    case_bool_decide; [|done]. by intros [= ->]; subst.
Qed.

Lemma enter_split (seg : list ascii) (k : kind) (toks : pattern)
    (common seg_rest : list ascii) (toks_rest : pattern) :
  enter seg k toks = Split common seg_rest toks_rest ->
  k = Static /\ seg = common ++ seg_rest /\ seg_rest <> [] /\
  toks = (Lit <$> common) ++ toks_rest /\
  (forall c, head seg_rest = Some c -> head toks_rest <> Some (Lit c)) /\
  (forall c, head seg = Some c -> head toks = Some (Lit c) ->
             head common = Some c).
Proof.
  unfold enter. destruct k.
  - pose proof (lcp_spec seg toks) as Hl. pose proof (lcp_head seg toks) as Hh.
    destruct (lcp seg toks) as [[common' seg_rest'] rest].
    destruct Hl as (Hseg & Htoks & Hne). destruct seg_rest' as [|c0 sr]; [done|].
    intros [= <- <- <-]. repeat split; done.
  - destruct toks as [|[c|name|name] toks]; try done. by case_bool_decide.
  - destruct toks as [|[c|name|name] toks]; try done. by case_bool_decide.
Qed.

Lemma routes_merge_lit (c : ascii) (seg : list ascii) (cs : list (node Hnd))
    (pr : nat) (hd : option Hnd) (mp : nat) :
  routes (Node (c :: seg) Static cs pr hd mp)
  = prod_map (cons (Lit c)) id <$> routes (Node seg Static cs pr hd mp).
Proof.
  cbn [routes label_of]. rewrite fmap_app. f_equal; [by destruct hd|].
  rewrite <- list_fmap_compose. apply list_fmap_ext. by intros ? [sub h].
Qed.

Lemma chain_lit_lit (c c' : ascii) (toks : pattern) (h : Hnd) :
  chain (Lit c :: Lit c' :: toks) h = merge_lit c (chain (Lit c' :: toks) h).
Proof. reflexivity. Qed.

Lemma chain_lit_wild (c : ascii) (t : token) (toks : pattern) (h : Hnd) :
  is_wild t = true ->
  chain (Lit c :: t :: toks) h
  = [Node [c] Static (chain (t :: toks) h) 1 None (count_wild (t :: toks))].
Proof. by destruct t. Qed.

Lemma chain_par (name : list ascii) (t : token) (toks : pattern) (h : Hnd) :
  chain (Par name :: t :: toks) h
  = [Node name Param (chain (t :: toks) h) 1 None
       (count_wild (Par name :: t :: toks))].
Proof. reflexivity. Qed.

Lemma chain_cat (name : list ascii) (t : token) (toks : pattern) (h : Hnd) :
  chain (Cat name :: t :: toks) h
  = [Node name CatchAll (chain (t :: toks) h) 1 None
       (count_wild (Cat name :: t :: toks))].
Proof. reflexivity. Qed.

Lemma fork_ok_nil : fork_ok [].
Proof. left. split; constructor. Qed.

(** The new nodes for a nonempty rest of a pattern are one well-formed
    node, holding exactly the new route, that takes the first token. *)
Lemma chain_spec (toks : pattern) (h : Hnd) (t : token) :
  head toks = Some t ->
  exists ch, chain toks h = [ch] /\ routes ch = [(toks, h)] /\ wf ch /\
             accepts t ch = true /\
             (if is_wild t then nkind ch <> Static
              else nkind ch = Static /\ segment ch <> []).
Proof.
  revert t. induction toks as [|t0 toks IH]; intros t [= ->].
  destruct toks as [|t' toks'].
  { destruct t as [c|name|name]; cbn [chain]; eexists;
      (split; [reflexivity|]); (split; [reflexivity|]);
      (split; [constructor; [apply fork_ok_nil | constructor]|]);
      (split; [by apply bool_decide_eq_true_2|]); done. }
  destruct (IH t' eq_refl) as (ch' & Hch & Hr & Hwf & Hacc & Hkind).
  assert (Hfork : fork_ok [ch']).
  { destruct (is_wild t') eqn:Hw.
    - right. by exists ch'.
    - left. split; [constructor; [done | constructor]|].
      apply NoDup_singleton. }
  assert (Hall : Forall wf [ch']) by (by repeat constructor).
  destruct t as [c|name|name].
  - destruct (is_wild t') eqn:Hw.
    + rewrite (chain_lit_wild c t' toks' h Hw), Hch.
      eexists. split; [reflexivity|]. cbn [routes flat_map].
      rewrite app_nil_r, Hr.
      split; [done|]. split; [by constructor|].
      split; [by apply bool_decide_eq_true_2 | done].
    + destruct t' as [c'|name'|name']; [|done..].
      rewrite chain_lit_lit, Hch.
      destruct Hkind as [Hk Hs]. destruct ch' as [seg k cs pr hd mp].
      cbn in Hk. subst k. cbn [merge_lit]. eexists. split; [reflexivity|].
      rewrite routes_merge_lit, Hr.
      split; [done|]. split; [inversion Hwf; subst; by constructor|].
      split; [by apply bool_decide_eq_true_2 | done].
  - rewrite chain_par, Hch.
    eexists. split; [reflexivity|]. cbn [routes flat_map].
    rewrite app_nil_r, Hr.
    split; [done|]. split; [by constructor|].
    split; [by apply bool_decide_eq_true_2 | done].
  - rewrite chain_cat, Hch.
    eexists. split; [reflexivity|]. cbn [routes flat_map].
    rewrite app_nil_r, Hr.
    split; [done|]. split; [by constructor|].
    split; [by apply bool_decide_eq_true_2 | done].
Qed.

Lemma bubble_perm (before : list (node Hnd)) (ch : node Hnd) :
  bubble before ch ≡ₚ reverse before ++ [ch].
Proof.
  induction before as [|prev before IH]; [done|]. cbn [bubble].
  destruct (priority prev <? priority ch)%nat; [|done].
  rewrite IH, reverse_cons. rewrite <- !app_assoc.
  apply Permutation_app_head. apply Permutation_app_comm.
Qed.

Lemma descend_none (ins : node Hnd -> outcome (node Hnd)) (t : token)
    (before cs : list (node Hnd)) :
  descend ins t before cs = None ->
  Forall (fun ch => accepts t ch = false) cs.
Proof.
  revert before. induction cs as [|ch cs IH]; intros before; [constructor|].
  cbn [descend]. destruct (accepts t ch) eqn:Hacc; [done|].
  intros Hd. constructor; [done | by apply (IH (ch :: before))].
Qed.

Lemma descend_some (ins : node Hnd -> outcome (node Hnd)) (t : token)
    (before cs : list (node Hnd)) (res : outcome (list (node Hnd))) :
  descend ins t before cs = Some res ->
  exists pre ch post,
    cs = pre ++ ch :: post /\ accepts t ch = true /\
    match ins ch with
    | Ok ch' =>
        exists cs', res = Ok cs' /\ cs' ≡ₚ reverse before ++ pre ++ ch' :: post
    | Err e => res = Err e
    end.
Proof.
  revert before. induction cs as [|ch cs IH]; intros before; [done|].
  cbn [descend]. destruct (accepts t ch) eqn:Hacc.
  - intros [= <-]. exists [], ch, cs. split; [done|]. split; [done|].
    destruct (ins ch) as [ch'|e]; [|done].
    eexists. split; [reflexivity|]. cbn [app].
    rewrite bubble_perm. by rewrite <- app_assoc.
  - intros (pre & ch0 & post & -> & Hacc0 & Hres)%IH.
    exists (ch :: pre), ch0, post. split; [done|]. split; [done|].
    destruct (ins ch0) as [ch'|e]; [|done].
    destruct Hres as (cs' & -> & Hperm). exists cs'. split; [done|].
    rewrite Hperm, reverse_cons, <- !app_assoc. done.
Qed.

Lemma routes_children_elem (seg : list ascii) (k : kind)
    (cs : list (node Hnd)) (pr : nat) (hd : option Hnd) (mp : nat)
    (r : pattern * Hnd) :
  r ∈ routes (Node seg k cs pr hd mp) <->
  (exists h, hd = Some h /\ r = (label_of seg k, h)) \/
  (exists ch sub h, ch ∈ cs /\ (sub, h) ∈ routes ch /\
                    r = (label_of seg k ++ sub, h)).
Proof. apply routes_elem. Qed.

Lemma attach_spec (n : node Hnd) (toks : pattern) (h : Hnd) (n' : node Hnd) :
  attach n toks h = Ok n' ->
  segment n' = segment n /\ nkind n' = nkind n /\
  (forall r, r ∈ routes n' <-> r = (label n ++ toks, h) \/ r ∈ routes n) /\
  (wf n ->
   (forall t, head toks = Some t ->
              Forall (fun ch => accepts t ch = false) (children n)) ->
   wf n').
Proof.
  destruct n as [seg k cs pr hd mp]. unfold attach, label.
  cbn [segment nkind children priority handler max_params].
  destruct toks as [|t toks'].
  - destruct hd as [h0|]; [done|]. intros [= <-].
    split; [done|]. split; [done|]. split.
    + intros r. rewrite !routes_children_elem, app_nil_r. split.
      * intros [(h1 & [= <-] & ->)|Hch]; [by left | right; by right].
      * intros [->|[(h1 & [=] & _)|Hch]]; [left; by exists h | by right].
    + intros Hwf _. inversion Hwf; subst. by constructor.
  - destruct (chain_spec (t :: toks') h t eq_refl)
      as (ch & Hch & Hr & Hwfch & Hacc & Hkind).
    rewrite Hch.
    destruct (if is_wild t then negb (bool_decide (cs = []))
              else negb (forallb is_static cs)) eqn:Hcond; [done|].
    intros [= <-]. split; [done|]. split; [done|]. split.
    + intros r. rewrite !routes_children_elem. split.
      * intros [Hown|(x & sub & h1 & Hx & Hsub & ->)]; [right; by left|].
        apply elem_of_app in Hx as [Hx|Hx].
        -- right. right. by exists x, sub, h1.
        -- apply list_elem_of_singleton in Hx as ->. rewrite Hr in Hsub.
           apply list_elem_of_singleton in Hsub as [= -> ->]. by left.
      * intros [->|[Hown|(x & sub & h1 & Hx & Hsub & ->)]]; [|by left|].
        -- right. exists ch, (t :: toks'), h. split; [|split; [|done]].
           ++ apply elem_of_app. right. by apply list_elem_of_singleton.
           ++ rewrite Hr. by apply list_elem_of_singleton.
        -- right. exists x, sub, h1. split; [|done].
           apply elem_of_app. by left.
    + intros Hwf Hno. specialize (Hno t eq_refl).
      inversion Hwf as [? ? ? ? ? ? Hfork Hcs]; subst.
      constructor; [|apply Forall_app; split; [done | by constructor]].
      destruct (is_wild t) eqn:Hw.
      * apply negb_false_iff, bool_decide_eq_true_1 in Hcond as ->.
        right. by exists ch.
      * apply negb_false_iff in Hcond. rewrite forallb_forall in Hcond.
        destruct Hkind as [Hk Hs].
        destruct Hfork as [[Hst Hnd']|(ch0 & -> & Hk0)].
        -- left. split; [apply Forall_app; split; [done | by constructor]|].
           rewrite fmap_app. apply NoDup_app. split; [done|].
           split; [|apply NoDup_singleton].
           intros o (x & -> & Hx)%list_elem_of_fmap Hin.
           apply list_elem_of_singleton in Hin.
           rewrite Forall_forall in Hno, Hst.
           specialize (Hno x Hx). destruct (Hst x Hx) as [Hkx _].
           destruct t as [c| |]; [|done..].
           unfold accepts in Hno, Hacc. rewrite Hkx in Hno. rewrite Hk in Hacc.
           apply bool_decide_eq_true_1 in Hacc.
           rewrite Hin, Hacc in Hno. by rewrite bool_decide_eq_true_2 in Hno.
        -- exfalso. specialize (Hcond ch0 ltac:(by left)).
           unfold is_static in Hcond. by destruct (nkind ch0).
Qed.

Lemma routes_split (common seg_rest : list ascii) (cs : list (node Hnd))
    (pr pr' : nat) (hd : option Hnd) (mp mp' : nat) :
  routes (Node common Static [Node seg_rest Static cs pr hd mp] pr' None mp')
  = routes (Node (common ++ seg_rest) Static cs pr hd mp).
Proof.
  cbn [routes flat_map label_of app].
  rewrite app_nil_r, !fmap_app, <- list_fmap_compose. f_equal.
  - by destruct hd.
  - apply list_fmap_ext. intros ? [sub h]. cbn. by rewrite app_assoc.
Qed.

Lemma fork_ok_replace (pre post cs' : list (node Hnd)) (ch ch' : node Hnd) :
  fork_ok (pre ++ ch :: post) -> cs' ≡ₚ pre ++ ch' :: post ->
  nkind ch' = nkind ch -> head (segment ch') = head (segment ch) ->
  fork_ok cs'.
Proof.
  intros [[Hst Hnd']|(ch0 & Heq & Hk0)] Hperm Hk Hh.
  - left. rewrite Hperm. split.
    + apply Forall_app in Hst as [Hpre Hrest].
      apply Forall_cons in Hrest as [[Hkc Hsc] Hpost].
      apply Forall_app. split; [done|]. constructor; [|done].
      split; [congruence|]. intros Hnil. rewrite Hnil in Hh.
      by destruct (segment ch).
    + rewrite fmap_app, fmap_cons, Hh. by rewrite fmap_app, fmap_cons in Hnd'.
  - right. destruct pre as [|x pre]; [|by destruct pre].
    injection Heq as -> ->. apply Permutation_singleton_r in Hperm as ->.
    exists ch'. split; [done | congruence].
Qed.

(** An insertion that succeeds adds exactly the new route, keeps the kind
    and the first byte of the node it entered, and keeps the tree well
    formed. *)
Lemma insert_spec (n : node Hnd) (toks : pattern) (h : Hnd) (n' : node Hnd) :
  insert n toks h = Ok n' ->
  nkind n' = nkind n /\
  (forall t, head toks = Some t -> accepts t n = true ->
             head (segment n') = head (segment n)) /\
  (forall r, r ∈ routes n' <-> r = (toks, h) \/ r ∈ routes n) /\
  (wf n -> wf n').
Proof.
  revert toks h n'.
  induction n as [seg k cs pr hd mp IH] using node_ind'; intros toks h n'.
  cbn [insert].
  destruct (enter seg k toks) as [|common seg_rest toks_rest|toks_rest] eqn:Hent;
    [done| |].
  - apply enter_split in Hent as (-> & -> & Hne & -> & Hdiff & Hhead).
    intros (Hseg & Hkind & Hroutes & Hwf)%attach_spec.
    cbn [segment nkind children label label_of] in *.
    split; [done|]. split; [|split].
    + intros t Ht Hacc. rewrite Hseg. destruct t as [c| |]; [|done..].
      unfold accepts in Hacc. cbn [nkind segment] in Hacc.
      apply bool_decide_eq_true_1 in Hacc. rewrite Hacc. by apply Hhead.
    + intros r. rewrite Hroutes, routes_split. done.
    + intros Hn. apply Hwf.
      * inversion Hn as [? ? ? ? ? ? Hfork Hcs]; subst.
        constructor; [|constructor; [by constructor | constructor]].
        left. split; [|apply NoDup_singleton].
        constructor; [done | constructor].
      * intros t Ht. constructor; [|constructor].
        unfold accepts. cbn [nkind segment].
        destruct t as [c| |]; [|done..].
        apply bool_decide_eq_false_2. intros Hc. by apply (Hdiff c).
  - apply enter_full in Hent as ->.
    destruct toks_rest as [|t ts].
    { intros (Hseg & Hkind & Hroutes & Hwf)%attach_spec.
      cbn [segment nkind children label] in *.
      split; [done|]. split; [by rewrite Hseg|]. split; [done|].
      intros Hn. apply Hwf; [done|]. by intros t [=]. }
    destruct (descend (fun ch => insert ch (t :: ts) h) t [] cs)
      as [res|] eqn:Hd.
    + apply descend_some in Hd as (pre & ch & post & -> & Hacc & Hres).
      destruct (insert ch (t :: ts) h) as [ch'|e] eqn:Hins; [|by subst res].
      destruct Hres as (cs' & -> & Hperm). rewrite reverse_nil in Hperm.
      cbn [app] in Hperm.
      rewrite Forall_forall in IH.
      assert (Hin : ch ∈ pre ++ ch :: post).
      { apply elem_of_app. right. apply elem_of_cons. by left. }
      destruct (IH ch Hin _ _ _ Hins) as (Hk' & Hh' & Hr' & Hwf').
      intros [= <-]. cbn [nkind segment].
      split; [done|]. split; [done|]. split.
      * intros r. rewrite !routes_children_elem. split.
        -- intros [Hown|(x & sub & h1 & Hx & Hsub & ->)]; [right; by left|].
           rewrite Hperm in Hx.
           apply elem_of_app in Hx as [Hx|Hx];
             [|apply elem_of_cons in Hx as [->|Hx]].
           ++ right. right. exists x, sub, h1. split; [|done].
              apply elem_of_app. by left.
           ++ apply Hr' in Hsub as [[= -> ->]|Hsub]; [by left|].
              right. right. by exists ch, sub, h1.
           ++ right. right. exists x, sub, h1. split; [|done].
              apply elem_of_app. right. apply elem_of_cons. by right.
        -- intros [->|[Hown|(x & sub & h1 & Hx & Hsub & ->)]]; [|by left|].
           ++ right. exists ch', (t :: ts), h. rewrite Hperm.
              split; [|split; [|done]].
              ** apply elem_of_app. right. apply elem_of_cons. by left.
              ** apply Hr'. by left.
           ++ right.
              apply elem_of_app in Hx as [Hx|Hx];
             [|apply elem_of_cons in Hx as [->|Hx]].
              ** exists x, sub, h1. rewrite Hperm. split; [|done].
                 apply elem_of_app. by left.
              ** exists ch', sub, h1. rewrite Hperm. split; [|split; [|done]].
                 --- apply elem_of_app. right. apply elem_of_cons. by left.
                 --- apply Hr'. by right.
              ** exists x, sub, h1. rewrite Hperm. split; [|done].
                 apply elem_of_app. right. apply elem_of_cons. by right.
      * intros Hn. inversion Hn as [? ? ? ? ? ? Hfork Hcs]; subst.
        constructor.
        -- apply (fork_ok_replace pre post cs' ch ch' Hfork Hperm Hk').
           by apply (Hh' t).
        -- rewrite Hperm. apply Forall_app in Hcs as [Hpre Hrest].
           apply Forall_cons in Hrest as [Hch Hpost].
           apply Forall_app. split; [done|]. constructor; [by apply Hwf' | done].
    + apply descend_none in Hd.
      intros (Hseg & Hkind & Hroutes & Hwf)%attach_spec.
      cbn [segment nkind children label] in *.
      split; [done|]. split; [by rewrite Hseg|]. split; [done|].
      intros Hn. apply Hwf; [done|]. by intros t0 [= <-].
Qed.

(** *** Patterns are read back from their tokens *)

Definition unparse_token (t : token) : path :=
  match t with
  | Lit c => [c]
  | Par name => colon :: name
  | Cat name => slash :: star :: name
  end.

Definition unparse (toks : pattern) : path := toks ≫= unparse_token.

Lemma unparse_app (a b : pattern) : unparse (a ++ b) = unparse a ++ unparse b.
Proof. apply bind_app. Qed.

Lemma segment_tokens_unparse (seg : path) (toks : pattern) :
  segment_tokens seg = Ok toks -> unparse toks = seg.
Proof.
  revert toks. induction seg as [|c seg IH]; intros toks; cbn [segment_tokens].
  { by intros [= <-]. }
  destruct (Ascii.eqb_spec c colon) as [->|_].
  { destruct (name_ok seg); [|done]. intros [= <-]. cbn. by rewrite app_nil_r. }
  destruct (Ascii.eqb c star); [done|].
  destruct (segment_tokens seg) as [toks'|e]; [|done].
  intros [= <-]. cbn. f_equal. by apply IH.
Qed.

Lemma pattern_tokens_unparse (segs : list path) (toks : pattern) :
  pattern_tokens segs = Ok toks ->
  unparse toks = concat (map (cons slash) segs).
Proof.
  revert toks. induction segs as [|seg segs IH]; intros toks; cbn [pattern_tokens].
  { by intros [= <-]. }
  case_bool_decide as Hstar.
  - destruct (bool_decide_reflect (segs = [])) as [->|]; [|done]. cbn [andb].
    destruct (name_ok (tail seg)); [|done]. intros [= <-].
    destruct seg as [|c seg]; [done|]. injection Hstar as ->.
    cbn. by rewrite !app_nil_r.
  - destruct (segment_tokens seg) as [toks1|e] eqn:H1;
      destruct (pattern_tokens segs) as [toks2|e'] eqn:H2; try done.
    intros [= <-]. change (Lit slash :: toks1 ++ toks2) with ([Lit slash] ++ toks1 ++ toks2).
    rewrite !unparse_app, (segment_tokens_unparse _ _ H1), (IH _ eq_refl).
    done.
Qed.

Lemma segments_joined_back (p : path) :
  match Clean.segments p with
  | seg :: segs => p = seg ++ concat (map (cons slash) segs)
  | [] => False
  end.
Proof.
  induction p as [|c p IH]; cbn [Clean.segments]; [done|].
  destruct (Ascii.eqb_spec c Clean.slash) as [->|_].
  - destruct (Clean.segments p) as [|seg segs]; [done|]. cbn. by rewrite <- IH.
  - destruct (Clean.segments p) as [|seg segs]; [done|]. cbn. by rewrite IH at 1.
Qed.

Lemma parse_unparse (pat : string) (toks : pattern) :
  parse pat = Ok toks -> unparse toks = bytes pat.
Proof.
  unfold parse, bytes. pose proof (segments_joined_back (list_ascii_of_string pat)) as Hj.
  destruct (Clean.segments (list_ascii_of_string pat)) as [|seg0 segs0]; [done|].
  destruct seg0; [|done]. destruct segs0 as [|seg segs]; [done|].
  destruct (pattern_tokens (seg :: segs)) as [toks'|e] eqn:Hp; [|done].
  case_bool_decide; [|done]. intros [= <-].
  rewrite Hj. by apply pattern_tokens_unparse.
Qed.

Lemma parse_inj (pat1 pat2 : string) (toks : pattern) :
  parse pat1 = Ok toks -> parse pat2 = Ok toks -> pat1 = pat2.
Proof.
  intros H1%parse_unparse H2%parse_unparse. unfold bytes in *.
  rewrite <- (string_of_list_ascii_of_string pat1),
          <- (string_of_list_ascii_of_string pat2). congruence.
Qed.

(** *** Trees built by registration *)

(** The parameters a registered pattern gives a path, if it matches. *)
Definition pattern_match (pat p : string) : option params :=
  match parse pat with
  | Ok toks => pmatch toks (bytes p)
  | Err _ => None
  end.

(** The routes of a list of registrations. *)
Definition registered (regs : list (string * Hnd)) (r : pattern * Hnd) : Prop :=
  exists pat, (pat, r.2) ∈ regs /\ parse pat = Ok r.1.

Lemma wf_empty : wf (@empty Hnd).
Proof. constructor; [apply fork_ok_nil | constructor]. Qed.

Lemma routes_is_empty (t : node Hnd) : is_empty t = true -> routes t = [].
Proof.
  destruct t as [seg k cs pr hd mp]. unfold is_empty. cbn.
  intros [[_ Hcs%bool_decide_eq_true_1]%andb_true_iff Hhd]%andb_true_iff.
  subst cs. by destruct hd.
Qed.

Lemma addRoute_spec (t : node Hnd) (pat : string) (h : Hnd) (t' : node Hnd) :
  addRoute t pat h = Ok t' ->
  exists toks, parse pat = Ok toks /\
    (forall r, r ∈ routes t' <-> r = (toks, h) \/ r ∈ routes t) /\
    (wf t -> wf t').
Proof.
  unfold addRoute. destruct (parse pat) as [toks|e]; [|done].
  intros Hadd. exists toks. split; [done|].
  destruct (is_empty t) eqn:Hempty.
  - rewrite (routes_is_empty t Hempty).
    destruct toks as [|t0 toks']; [done|].
    destruct (chain_spec (t0 :: toks') h t0 eq_refl) as (ch & Hch & Hr & Hwf & _).
    rewrite Hch in Hadd. injection Hadd as <-. split; [|done].
    intros r. rewrite Hr, list_elem_of_singleton. split; [by left|].
    intros [->|Hin]; [done | by apply elem_of_nil in Hin].
  - destruct (insert_spec t toks h t' Hadd) as (_ & _ & Hr & Hwf). done.
Qed.

Lemma build_spec (regs : list (string * Hnd)) (t t' : node Hnd) :
  build t regs = Ok t' -> wf t ->
  wf t' /\
  (forall r, r ∈ routes t' <-> r ∈ routes t \/ registered regs r) /\
  (forall pat h, (pat, h) ∈ regs -> exists toks, parse pat = Ok toks).
Proof.
  revert t. induction regs as [|[pat h] regs IH]; intros t; cbn [build].
  - intros [= <-] Hwf. split; [done|]. split.
    + intros r. split; [by left|]. intros [Hr|(pat & Hin & _)]; [done|].
      by apply elem_of_nil in Hin.
    + intros pat h Hin. by apply elem_of_nil in Hin.
  - destruct (addRoute t pat h) as [t1|e] eqn:Hadd; [|done].
    intros Hb Hwf.
    destruct (addRoute_spec t pat h t1 Hadd) as (toks & Hparse & Hr1 & Hwf1).
    destruct (IH t1 Hb (Hwf1 Hwf)) as (Hwf' & Hr' & Hp'). split; [done|]. split.
    + intros r. rewrite Hr', Hr1. split.
      * intros [[->|Hr]|(pat0 & Hin & Hp0)]; [| by left |].
        -- right. exists pat. split; [apply elem_of_cons; by left | done].
        -- right. exists pat0. split; [apply elem_of_cons; by right | done].
      * intros [Hr|(pat0 & Hin & Hp0)]; [left; by right|].
        apply elem_of_cons in Hin as [[= -> Hh]|Hin].
        -- left. left. destruct r as [toks0 h0]. cbn in *. congruence.
        -- right. by exists pat0.
    + intros pat0 h0 [[= -> ->]|Hin]%elem_of_cons; [by exists toks|].
      by apply (Hp' pat0 h0).
Qed.

Lemma getValue_routes_ext (t1 t2 : node Hnd) (p : path) :
  wf t1 -> wf t2 -> (forall r, r ∈ routes t1 <-> r ∈ routes t2) ->
  getValue t1 p = getValue t2 p.
Proof.
  intros Hwf1 Hwf2 Hr. rewrite !getValue_locate.
  destruct (locate t1 p) as [[[pat h] ps]|] eqn:H1.
  - apply locate_sound in H1 as [Hin Hm]. apply Hr in Hin.
    by rewrite (locate_complete t2 p pat h ps Hwf2 Hin Hm).
  - destruct (locate t2 p) as [[[pat h] ps]|] eqn:H2; [|done].
    apply locate_sound in H2 as [Hin Hm]. apply Hr in Hin.
    by rewrite (locate_complete t1 p pat h ps Hwf1 Hin Hm) in H1.
Qed.

Lemma lookup_matched (t : node Hnd) (p : string) (h : Hnd) (ps : params) :
  lookup t p = Matched h ps <-> getValue t (bytes p) = Some (h, ps).
Proof.
  unfold lookup. destruct (getValue t (bytes p)) as [[h0 ps0]|].
  - split; by intros [= -> ->].
  - done.
Qed.

(** C1. In a tree built by registrations that all succeeded, a path never
    matches two different registered patterns: two registrations whose
    patterns both match the path are the same pattern with the same
    handler. [lookup] returns a handler exactly when a registered pattern
    matches the path, and then it is that pattern's handler with that
    pattern's parameters. Neither priorities nor the order of registration
    enter. *)
Theorem lookup_unambiguous (regs : list (string * Hnd)) (t : node Hnd)
    (p : string) :
  build empty regs = Ok t ->
  (forall pat1 h1 pat2 h2,
     (pat1, h1) ∈ regs -> (pat2, h2) ∈ regs ->
     is_Some (pattern_match pat1 p) -> is_Some (pattern_match pat2 p) ->
     pat1 = pat2 /\ h1 = h2) /\
  (forall h ps,
     lookup t p = Matched h ps <->
     exists pat, (pat, h) ∈ regs /\ pattern_match pat p = Some ps).
Proof.
  intros Hb. destruct (build_spec regs empty t Hb wf_empty) as (Hwf & Hr & Hp).
  assert (Hreg : forall pat h toks,
            (pat, h) ∈ regs -> parse pat = Ok toks -> (toks, h) ∈ routes t).
  { intros pat h toks Hin Hparse. apply Hr. right. by exists pat. }
  split.
  - intros pat1 h1 pat2 h2 Hin1 Hin2. unfold pattern_match.
    destruct (parse pat1) as [toks1|] eqn:Hp1; [|by intros []].
    destruct (parse pat2) as [toks2|] eqn:Hp2; [|by intros _ []].
    intros Hm1 Hm2.
    pose proof (routes_unambiguous t (bytes p) (toks1, h1) (toks2, h2) Hwf
                  (Hreg _ _ _ Hin1 Hp1) (Hreg _ _ _ Hin2 Hp2) Hm1 Hm2) as [= -> ->].
    split; [|done]. by apply (parse_inj pat1 pat2 toks2).
  - intros h ps. rewrite lookup_matched, getValue_locate. split.
    + destruct (locate t (bytes p)) as [[[toks h0] ps0]|] eqn:Hloc; [|done].
      intros [= -> ->]. apply locate_sound in Hloc as [Hin Hm].
      apply Hr in Hin as [Hin|(pat & Hin & Hparse)];
        [by apply elem_of_nil in Hin|].
      exists pat. split; [done|]. unfold pattern_match. cbn in Hparse.
      by rewrite Hparse.
    + intros (pat & Hin & Hm). unfold pattern_match in Hm.
      destruct (parse pat) as [toks|] eqn:Hparse; [|done].
      by rewrite (locate_complete t (bytes p) toks h ps Hwf
                    (Hreg _ _ _ Hin Hparse) Hm).
Qed.

(** C7. Two trees built from the same registrations in two orders, both
    without an error, give every path the same outcome: the same handler
    and parameters, or the same trailing-slash hint. *)
Theorem lookup_order_independent (regs1 regs2 : list (string * Hnd))
    (t1 t2 : node Hnd) (p : string) :
  regs1 ≡ₚ regs2 ->
  build empty regs1 = Ok t1 -> build empty regs2 = Ok t2 ->
  lookup t1 p = lookup t2 p.
Proof.
  intros Hperm Hb1 Hb2.
  destruct (build_spec regs1 empty t1 Hb1 wf_empty) as (Hwf1 & Hr1 & _).
  destruct (build_spec regs2 empty t2 Hb2 wf_empty) as (Hwf2 & Hr2 & _).
  assert (Hr : forall r, r ∈ routes t1 <-> r ∈ routes t2).
  { intros r. rewrite Hr1, Hr2. unfold registered.
    by setoid_rewrite Hperm. }
  unfold lookup.
  by rewrite !(getValue_routes_ext t1 t2 _ Hwf1 Hwf2 Hr).
Qed.

End Theory.

(** *** The specification's examples (section 8), handlers named by numbers *)

Definition blog_src : list (string * nat) :=
  [("/blog/:category/:post"%string, 1); ("/src/*filepath"%string, 2);
   ("/blog/"%string, 3)].

Definition src_blog : list (string * nat) :=
  [("/blog/"%string, 3); ("/src/*filepath"%string, 2);
   ("/blog/:category/:post"%string, 1)].

Definition tree_of_regs (regs : list (string * nat)) : node nat :=
  match build empty regs with
  | Ok t => t
  | Err _ => empty
  end.

Definition blog_src_tree : node nat := Eval vm_compute in tree_of_regs blog_src.
Definition src_blog_tree : node nat := Eval vm_compute in tree_of_regs src_blog.

Example round_trip_capture :
  lookup blog_src_tree "/blog/go/routers"
  = Matched 1 [(bytes "category", bytes "go"); (bytes "post", bytes "routers")].
Proof. reflexivity. Qed.

Example catch_all :
  lookup blog_src_tree "/src/a/b.go" = Matched 2 [(bytes "filepath", bytes "/a/b.go")] /\
  lookup blog_src_tree "/src/" = Matched 2 [(bytes "filepath", bytes "/")] /\
  lookup blog_src_tree "/src" = NotFound true.
Proof. repeat split; reflexivity. Qed.

Example trailing_slash_hint :
  lookup blog_src_tree "/blog" = NotFound true /\
  lookup blog_src_tree "/blog/go/routers/" = NotFound true /\
  lookup blog_src_tree "/blog/go/" = NotFound false.
Proof. repeat split; reflexivity. Qed.

Example conflict_rejection :
  build empty [("/user/new"%string, 1); ("/user/:id"%string, 2)] = Err RouteConflict /\
  build empty [("/user/:id"%string, 1); ("/user/new"%string, 2)] = Err RouteConflict /\
  build empty [("/src/"%string, 1); ("/src/*filepath"%string, 2)] = Err RouteConflict /\
  build empty [("/src/*filepath"%string, 1); ("/src/"%string, 2)] = Err RouteConflict /\
  build empty [("/a"%string, 1); ("/a"%string, 2)] = Err DuplicateRoute.
Proof. repeat split; reflexivity. Qed.

Lemma lookup_unambiguous_witness :
  (forall pat1 h1 pat2 h2,
     (pat1, h1) ∈ blog_src -> (pat2, h2) ∈ blog_src ->
     is_Some (pattern_match pat1 "/blog/go/routers") ->
     is_Some (pattern_match pat2 "/blog/go/routers") ->
     pat1 = pat2 /\ h1 = h2) /\
  (forall h ps,
     lookup blog_src_tree "/blog/go/routers" = Matched h ps <->
     exists pat, (pat, h) ∈ blog_src /\
                 pattern_match pat "/blog/go/routers" = Some ps).
Proof.
  apply (lookup_unambiguous blog_src blog_src_tree "/blog/go/routers").
  vm_compute. reflexivity.
Defined.

Lemma lookup_order_independent_witness :
  lookup blog_src_tree "/src/a/b.go" = lookup src_blog_tree "/src/a/b.go".
Proof.
  apply (lookup_order_independent blog_src src_blog).
  - symmetry. apply (reverse_Permutation blog_src).
  - vm_compute. reflexivity.
  - vm_compute. reflexivity.
Defined.

End Tree.

(** A concrete instance: handlers named by strings. *)
Module ChainExamples.
Import Chain.

Definition wrap (tag : string) : mwfunc string :=
  returning (fun h => match h with
                      | Some inner => Some (tag +:+ "(" +:+ inner +:+ ")")
                      | None => None
                      end)%string.

Example Then_two :
  Then "DefaultServeMux"%string [wrap "log"; wrap "auth"] (Some "index")
  = Go.Return (Some "log(auth(index))")%string.
Proof. reflexivity. Qed.

Example Then_nil_handler :
  Then "DefaultServeMux"%string [wrap "log"] None
  = Go.Return (Some "log(DefaultServeMux)")%string.
Proof. reflexivity. Qed.

(** C8 at a concrete input: one middleware given, two entries returned, the
    first of them nil, and chaining a handler panics. *)
Lemma NewMiddleware_one :
  NewMiddleware [wrap "auth"] = [None; wrap "auth"] /\
  length (NewMiddleware [wrap "auth"]) = 2 /\
  NewMiddleware [wrap "auth"] <> [wrap "auth"] /\
  Then "DefaultServeMux"%string (NewMiddleware [wrap "auth"]) (Some "index"%string)
  = Go.Panic Go.NilDereference.
Proof. repeat split; done. Qed.

End ChainExamples.

(** ** The router on the routing tree *)
Module HttpRouter.

(** Modelled from the spec: the text a registration error of section 7
    panics with; tree.go, which words the panics, is not among the
    sources. *)
Definition message (e : Tree.RegistrationError) : string :=
  match e with
  | Tree.InvalidPattern => "invalid pattern"
  | Tree.DuplicateRoute => "a handle is already registered for this path"
  | Tree.RouteConflict => "conflicts with an existing route"
  end.

(** The parameters as the [map[string]string] the router hands on. *)
Definition params_map (ps : Tree.params) : gmap string string :=
  list_to_map ((fun kv => (string_of_list_ascii kv.1, string_of_list_ascii kv.2)) <$> ps).

Section Instance.

Variable Handler : Type.

(** The nodes hold the [http.Handler] values given to [addRoute]. *)
Definition node : Type := Tree.node (Chain.handler Handler).

(** Modelled from the spec: [addRoute] of tree.go as router.go calls it, a
    statement without a result. A registration error of the inserter can
    then only leave it as a panic; the node is left as it was. *)
Definition addRoute (root : node) (path : string) (h : Chain.handler Handler)
  : node * Go.result unit :=
  match Tree.addRoute root path h with
  | Tree.Ok root' => (root', Go.Return tt)
  | Tree.Err e => (root, Go.Panic (Go.PanicString (message e)))
  end.

(** The three results of [getValue] for an outcome of the matcher. *)
Definition outcome_values (o : Tree.MatchOutcome (Chain.handler Handler))
  : Chain.handler Handler * option (gmap string string) * bool :=
  match o with
  | Tree.Matched h ps => (h, Some (params_map ps), false)
  | Tree.NotFound tsr => (None, None, tsr)
  end.

(** Modelled from the spec: [getValue] of tree.go as router.go calls it,
    with the three results of the matcher's outcome. The matcher of the spec
    is a function and has no failure; this says nothing on whether
    [getValue] of tree.go can panic. *)
Definition getValue (root : node) (path : string)
  : Go.result (Chain.handler Handler * option (gmap string string) * bool) :=
  Go.Return (outcome_values (Tree.lookup root path)).

End Instance.

Arguments addRoute {Handler} root path h.
Arguments getValue {Handler} root path.

(** Routers whose handlers are named by strings. *)
Definition Handle (r : Router.Router string (node string)) (method path : string)
    (mws : list (Chain.mwfunc string)) (handle : string)
  : Router.Router string (node string) * Go.result unit :=
  Router.Handle "DefaultServeMux"%string Tree.empty addRoute r method path mws handle.

Definition Lookup (r : Router.Router string (node string)) (method path : string) :=
  Router.Lookup getValue r method path.

Definition blog_router : Router.Router string (node string) :=
  (Handle Router.New "GET" "/blog/:category/:post" [] "post").1.

Example Handle_then_Lookup :
  Lookup blog_router "GET" "/blog/go/routers"
  = Go.Return (Some "post"%string,
               Some (params_map [(Tree.bytes "category", Tree.bytes "go");
                                 (Tree.bytes "post", Tree.bytes "routers")]),
               false) /\
  Lookup blog_router "GET" "/blog/go/routers/" = Go.Return (None, None, true) /\
  Lookup blog_router "POST" "/blog/go/routers" = Go.Return (None, None, false).
Proof. repeat split; reflexivity. Qed.

(** The README's per-route middleware: registration itself panics, because
    [NewMiddleware] puts a nil entry before the middleware. *)
Example Handle_with_middleware :
  (Handle Router.New "GET" "/protected/" [ChainExamples.wrap "auth"] "protected").2
  = Go.Panic Go.NilDereference.
Proof. reflexivity. Qed.

(** C2 as stated fails: registering a pattern without a leading slash does
    not return at all, so no error value is returned; the func panics. *)
Lemma Handle_no_slash_does_not_return :
  (Handle Router.New "GET" "blog" [] "index").2
  = Go.Panic (Go.PanicString "path must begin with '/'") /\
  ~ Go.returns (Handle Router.New "GET" "blog" [] "index").2.
Proof. split; [reflexivity|]. intros [a Ha]. discriminate Ha. Qed.

Lemma Handle_rejects_missing_slash_witness :
  Handle Router.New "GET" "blog" [] "index"
  = (Router.New, Go.Panic (Go.PanicString "path must begin with '/'")).
Proof.
  apply (Router.Handle_rejects_missing_slash string "DefaultServeMux"%string
           (node string) Tree.empty addRoute Router.New "GET" "blog" [] "index"
           "b"%char).
  - reflexivity.
  - discriminate.
Defined.

End HttpRouter.

(** ** More on the middleware chain (middleware.go) *)
Module ChainLaws.
Section ChainLaws.

Variable Handler : Type.
Variable DefaultServeMux : Handler.

(** The handler [Then] starts from: [h], or the default mux for nil. *)
Definition final_of (h : Chain.handler Handler) : Chain.handler Handler :=
  match h with
  | Some _ => h
  | None => Some DefaultServeMux
  end.

(** [ThenFunc]: [mw.Then(http.HandlerFunc(h))]. The conversion of a func,
    nil or not, is a non-nil [http.Handler]; [h] is that handler. *)
Definition ThenFunc (mw : Chain.Middleware Handler) (h : Handler)
  : Go.result (Chain.handler Handler) :=
  Chain.Then DefaultServeMux mw (Some h).

Lemma Then_nest (mw : list (Chain.mwfunc Handler)) (h : Chain.handler Handler) :
  Chain.Then DefaultServeMux mw h = Chain.nest mw (final_of h).
Proof. unfold Chain.Then. apply Chain.Then_loop_nest. Qed.

Lemma nest_app (mw ms : list (Chain.mwfunc Handler)) (h : Chain.handler Handler) :
  Chain.nest (mw ++ ms) h = do inner <~ Chain.nest ms h; Chain.nest mw inner.
Proof.
  induction mw as [|m mw IH]; cbn [app Chain.nest].
  - by destruct (Chain.nest ms h).
  - rewrite IH. by destruct (Chain.nest ms h).
Qed.

(** A chain that returns has called every entry, so none is nil. *)
Lemma nest_returns (mw : list (Chain.mwfunc Handler))
    (h g : Chain.handler Handler) :
  Chain.nest mw h = Go.Return g -> None ∉ mw.
Proof.
  revert g. induction mw as [|m mw IH]; intros g Hret.
  { apply not_elem_of_nil. }
  cbn [Chain.nest] in Hret.
  destruct (Chain.nest mw h) as [inner| |] eqn:Hinner; [|done..].
  cbn [Go.bind] in Hret. apply not_elem_of_cons. split; [|by eapply IH].
  intros <-. discriminate Hret.
Qed.

(** A chain that panics does so in one call, made with what the entries
    after it returned. *)
Lemma nest_panics (mw : list (Chain.mwfunc Handler)) (h : Chain.handler Handler)
    (v : Go.panic_value) :
  Chain.nest mw h = Go.Panic v ->
  exists pre m post inner,
    mw = pre ++ m :: post /\ Chain.nest post h = Go.Return inner /\
    Chain.call m inner = Go.Panic v.
Proof.
  induction mw as [|m mw IH]; intros Hp; [discriminate Hp|].
  cbn [Chain.nest] in Hp.
  destruct (Chain.nest mw h) as [inner|v'|] eqn:Hinner; cbn [Go.bind] in Hp.
  - by exists [], m, mw, inner.
  - injection Hp as ->.
    destruct (IH eq_refl) as (pre & m' & post & inner & -> & Hpost & Hcall).
    by exists (m :: pre), m', post, inner.
  - discriminate Hp.
Qed.

(** A nil entry that is reached is called: the chain panics there, whatever
    comes before it. *)
Lemma nest_nil_reached (pre : list (Chain.mwfunc Handler))
    (fs : list (Chain.handler Handler -> Chain.handler Handler))
    (h : Chain.handler Handler) :
  Chain.nest (pre ++ None :: (Chain.returning <$> fs)) h
  = Go.Panic Go.NilDereference.
Proof.
  rewrite nest_app. cbn [Chain.nest]. rewrite Chain.nest_all_funcs. done.
Qed.

(** X1. What [Then] can do. When it returns, no entry of the chain is nil.
    When it panics, the panic is that of one call: some entry, called with
    what the entries after it returned, panicked, a nil entry with the nil
    dereference and a middleware with its own panic; [Then] has no panic of
    its own, so no index out of range. On a chain of middleware that all
    return, it returns the entries applied in turn, the last one first, to
    the handler or, for nil, to the default mux; and a nil entry followed
    only by middleware that return makes it panic on the nil call, whatever
    comes before that entry. *)
Theorem Then_outcome (mw : Chain.Middleware Handler) (h : Chain.handler Handler) :
  (forall g, Chain.Then DefaultServeMux mw h = Go.Return g -> None ∉ mw) /\
  (forall v, Chain.Then DefaultServeMux mw h = Go.Panic v ->
     exists pre m post inner,
       mw = pre ++ m :: post /\
       Chain.nest post (final_of h) = Go.Return inner /\
       Chain.call m inner = Go.Panic v /\
       (m = None -> v = Go.NilDereference)) /\
  (forall fs, mw = Chain.returning <$> fs ->
     Chain.Then DefaultServeMux mw h
     = Go.Return (Chain.nest_pure fs (final_of h))) /\
  (forall pre fs, mw = pre ++ None :: (Chain.returning <$> fs) ->
     Chain.Then DefaultServeMux mw h = Go.Panic Go.NilDereference).
Proof.
  unfold Chain.Middleware in *. rewrite Then_nest.
  split; [|split; [|split]].
  - intros g. apply nest_returns.
  - intros v Hv.
    destruct (nest_panics mw _ v Hv) as (pre & m & post & inner & -> & Hpost & Hcall).
    exists pre, m, post, inner. split; [done|]. split; [done|]. split; [done|].
    intros ->. cbn in Hcall. congruence.
  - intros fs ->. apply Chain.nest_all_funcs.
  - intros pre fs ->. apply nest_nil_reached.
Qed.

(** X2. Chaining after [Use]: the middleware added later are applied first,
    and the chain there was before goes around what they return. This is
    [Then] of the old chain on that handler when it is not nil; a nil one is
    handed to the old chain as it is, not replaced by the default mux. *)
Theorem Then_Use (mw ms : Chain.Middleware Handler) (h : Chain.handler Handler) :
  Chain.Then DefaultServeMux (Chain.Use mw ms) h =
  (do inner <~ Chain.Then DefaultServeMux ms h;
   Chain.Then_loop mw (length mw) inner) /\
  (forall g, Chain.Then DefaultServeMux ms h = Go.Return (Some g) ->
     Chain.Then DefaultServeMux (Chain.Use mw ms) h
     = Chain.Then DefaultServeMux mw (Some g)).
Proof.
  assert (Heq : Chain.Then DefaultServeMux (Chain.Use mw ms) h =
                (do inner <~ Chain.Then DefaultServeMux ms h;
                 Chain.Then_loop mw (length mw) inner)).
  { unfold Chain.Then, Chain.Use, Chain.Middleware in *.
    rewrite !Chain.Then_loop_nest, nest_app.
    destruct (Chain.nest ms _) as [inner| |]; cbn [Go.bind]; [|done..].
    by rewrite Chain.Then_loop_nest. }
  split; [done|]. intros g Hg. rewrite Heq, Hg. done.
Qed.

End ChainLaws.
End ChainLaws.

(** ** More on the default parameter store (params.go) *)
Module ParamStoreLaws.
Import ParamStore.

(** What an [http.Handler] does to the package variables when it serves: it
    leaves a store and returns, panics or does not come back. *)
Definition serving := store -> store * Go.result unit.

(** [defaultHandler], with the built-in [SetParams]: the parameters are
    associated with the request, the handler serves, and the deferred
    [SetParams(r, nil)] runs when the handler has returned or panicked; a
    handler that does not come back leaves the deferred call unrun. A panic
    of the deferred call replaces the handler's outcome. *)
Definition defaultHandler (r : option request) (ps : params) (next : serving)
    (s : store) : store * Go.result unit :=
  match defaultSetParams r ps s with
  | Go.Return s1 =>
      let '(s2, res) := next s1 in
      match res with
      | Go.Blocked => (s2, Go.Blocked)
      | _ =>
          match defaultSetParams r None s2 with
          | Go.Return s3 => (s3, res)
          | Go.Panic v => (s2, Go.Panic v)
          | Go.Blocked => (s2, Go.Blocked)
          end
      end
  | Go.Panic v => (s, Go.Panic v)
  | Go.Blocked => (s, Go.Blocked)
  end.

(** The parameters [defaultParams] reads for a request in a store whose
    mutex is free. *)
Definition stored (r : request) (s : store) : params :=
  match paramsMap s !! r with
  | Some p => p
  | None => None
  end.

Lemma defaultParams_free (r : request) (s : store) :
  paramsLock s = false ->
  defaultParams (Some r) s = Go.Return (stored r s, s).
Proof.
  intros Hl. destruct s as [m l]. cbn in Hl. subst l.
  unfold defaultParams, stored, Lock, Unlock. cbn.
  by destruct (m !! r).
Qed.

Lemma defaultSetParams_free (r : request) (p : params) (s : store) :
  paramsLock s = false ->
  defaultSetParams (Some r) p s
  = Go.Return (Store (match p with
                      | Some _ => <[r := p]> (paramsMap s)
                      | None => delete r (paramsMap s)
                      end) false).
Proof.
  intros Hl. destruct s as [m l]. cbn in Hl. subst l.
  unfold defaultSetParams, Lock, Unlock. cbn. by destruct p.
Qed.

(** X3. The mutex discipline of the store: with the mutex free, setting
    returns with the mutex free again and reading returns the stored
    parameters and leaves the store exactly as it was; with the mutex held,
    both block. *)
Theorem store_mutex (r : request) (p : params) (s : store) :
  if paramsLock s
  then defaultSetParams (Some r) p s = Go.Blocked /\
       defaultParams (Some r) s = Go.Blocked
  else (exists s1, defaultSetParams (Some r) p s = Go.Return s1 /\
                   paramsLock s1 = false) /\
       defaultParams (Some r) s = Go.Return (stored r s, s).
Proof.
  destruct (paramsLock s) eqn:Hl.
  - unfold defaultSetParams, defaultParams, Lock. by rewrite Hl.
  - split; [|by apply defaultParams_free].
    rewrite defaultSetParams_free by done. by eexists.
Qed.

(** X4. Setting the parameters of one request never changes what is read
    for another request. *)
Theorem set_other_request (r r' : request) (p : params) (s : store) :
  r <> r' -> paramsLock s = false ->
  exists s1, defaultSetParams (Some r) p s = Go.Return s1 /\
             defaultParams (Some r') s1 = Go.Return (stored r' s, s1).
Proof.
  intros Hne Hl. rewrite defaultSetParams_free by done.
  eexists. split; [reflexivity|].
  rewrite defaultParams_free by done. f_equal. f_equal.
  unfold stored. cbn.
  destruct p; by rewrite ?lookup_insert_ne, ?lookup_delete_ne.
Qed.

(** X5. No entry is left behind: for a request without an entry, setting
    parameters and then setting nil gives back the store as it was; and of
    two settings in a row only the second counts. *)
Theorem set_then_unset (r : request) (p q : gmap string string) (s : store) :
  paramsLock s = false -> paramsMap s !! r = None ->
  (do s1 <~ defaultSetParams (Some r) (Some p) s;
   defaultSetParams (Some r) None s1) = Go.Return s /\
  (do s1 <~ defaultSetParams (Some r) (Some p) s;
   defaultSetParams (Some r) (Some q) s1)
  = defaultSetParams (Some r) (Some q) s.
Proof.
  intros Hl Hr. rewrite !defaultSetParams_free by done. cbn [Go.bind].
  rewrite !defaultSetParams_free by done. cbn [paramsMap]. split.
  - rewrite delete_insert_id by done. destruct s as [m l]. cbn in *. by subst l.
  - by rewrite insert_insert_eq.
Qed.

(** X6. [defaultHandler] on a non-nil request, with the mutex free and a
    handler that, when it returns or panics, leaves the mutex free: the
    handler serves on a store in which the request has the given parameters.
    When the handler returns or panics, the outcome is the handler's and
    afterwards the request has no entry, while every other request has what
    the handler left. When the handler does not come back, the deferred
    removal does not run: the store stays as the handler left it, the
    request's entry included. On the nil request [defaultHandler] panics
    with [ErrRequestNil] and the handler does not serve. *)
Theorem defaultHandler_scoped (r : request) (p : params) (next : serving)
    (s : store) :
  paramsLock s = false ->
  (forall s', paramsLock s' = false -> (next s').2 <> Go.Blocked ->
              paramsLock (next s').1 = false) ->
  exists s1,
    defaultSetParams (Some r) p s = Go.Return s1 /\
    stored r s1 = p /\
    ((next s1).2 <> Go.Blocked ->
     (defaultHandler (Some r) p next s).2 = (next s1).2 /\
     paramsLock (defaultHandler (Some r) p next s).1 = false /\
     paramsMap (defaultHandler (Some r) p next s).1 !! r = None /\
     (forall r', r' <> r ->
        paramsMap (defaultHandler (Some r) p next s).1 !! r'
        = paramsMap (next s1).1 !! r')) /\
    ((next s1).2 = Go.Blocked ->
     defaultHandler (Some r) p next s = next s1) /\
    defaultHandler None p next s = (s, Go.Panic (Go.PanicError ErrRequestNil)).
Proof.
  intros Hl Hnext. unfold defaultHandler.
  rewrite defaultSetParams_free by done.
  eexists. split; [reflexivity|].
  match goal with |- context [next ?s1] =>
    specialize (Hnext s1 eq_refl); destruct (next s1) as [s2 res] end.
  cbn [fst snd] in *.
  split.
  { unfold stored. cbn. destruct p; [by rewrite lookup_insert_eq|].
    by rewrite lookup_delete_eq. }
  split; [|split; [|done]].
  - intros Hres. specialize (Hnext Hres).
    assert (Hrun : match res with
                   | Go.Blocked => (s2, Go.Blocked)
                   | _ => match defaultSetParams (Some r) None s2 with
                          | Go.Return s3 => (s3, res)
                          | Go.Panic v => (s2, Go.Panic v)
                          | Go.Blocked => (s2, Go.Blocked)
                          end
                   end = (Store (delete r (paramsMap s2)) false, res)).
    { rewrite defaultSetParams_free by done. by destruct res. }
    rewrite Hrun. cbn [fst snd paramsMap paramsLock].
    split; [done|]. split; [done|]. split; [apply lookup_delete_eq|].
    intros r' Hne. by apply lookup_delete_ne.
  - intros ->. done.
Qed.

(** A handler that does not come back. *)
Definition stuck : serving := fun s => (s, Go.Blocked).

Lemma defaultHandler_stuck :
  defaultHandler (Some 1%positive) (Some gordon) stuck init
  = (Store {[ 1%positive := Some gordon ]} false, Go.Blocked).
Proof. reflexivity. Qed.

(** A handler that reads nothing, records parameters for request 7 and
    panics. *)
Definition panicking : serving :=
  fun s => (Store (<[7%positive := Some gordon]> (paramsMap s)) (paramsLock s),
            Go.Panic (Go.PanicString "boom")).

Lemma set_other_request_witness :
  exists s1, defaultSetParams (Some 1%positive) (Some gordon) init = Go.Return s1 /\
             defaultParams (Some 2%positive) s1
             = Go.Return (stored 2%positive init, s1).
Proof.
  apply (set_other_request 1%positive 2%positive (Some gordon) init).
  - discriminate.
  - reflexivity.
Defined.

Lemma set_then_unset_witness :
  (do s1 <~ defaultSetParams (Some 1%positive) (Some gordon) init;
   defaultSetParams (Some 1%positive) None s1) = Go.Return init /\
  (do s1 <~ defaultSetParams (Some 1%positive) (Some gordon) init;
   defaultSetParams (Some 1%positive) (Some ∅) s1)
  = defaultSetParams (Some 1%positive) (Some ∅) init.
Proof.
  apply (set_then_unset 1%positive gordon ∅ init); reflexivity.
Defined.

Lemma defaultHandler_scoped_witness :
  exists s1,
    defaultSetParams (Some 1%positive) (Some gordon) init = Go.Return s1 /\
    stored 1%positive s1 = Some gordon /\
    ((panicking s1).2 <> Go.Blocked ->
     (defaultHandler (Some 1%positive) (Some gordon) panicking init).2
     = (panicking s1).2 /\
     paramsLock (defaultHandler (Some 1%positive) (Some gordon) panicking init).1
     = false /\
     paramsMap (defaultHandler (Some 1%positive) (Some gordon) panicking init).1
       !! 1%positive = None /\
     (forall r', r' <> 1%positive ->
        paramsMap (defaultHandler (Some 1%positive) (Some gordon) panicking init).1
          !! r'
        = paramsMap (panicking s1).1 !! r')) /\
    ((panicking s1).2 = Go.Blocked ->
     defaultHandler (Some 1%positive) (Some gordon) panicking init
     = panicking s1) /\
    defaultHandler None (Some gordon) panicking init
    = (init, Go.Panic (Go.PanicError ErrRequestNil)).
Proof.
  apply (defaultHandler_scoped 1%positive (Some gordon) panicking init).
  - reflexivity.
  - intros s' Hs' _. exact Hs'.
Defined.

End ParamStoreLaws.

(** ** The parameter store with [UnsetParams] (the other params.go)

    This version of the file has no nil checks when it writes: any request
    pointer, also nil, is a key of the map, and nil parameters are stored
    like any others. *)
Module ParamStoreUnset.

(** A [*http.Request]: [None] is nil. *)
Abbreviation reqptr := (option positive).

(** A [map[string]string] value; [None] is the nil map. *)
Abbreviation params := (option (gmap string string)).

(** The package variables [paramsMap] and [paramsLock] ([true]: held). *)
Record store := Store {
  paramsMap : gmap reqptr params;
  paramsLock : bool
}.

Definition init : store := Store ∅ false.

Definition Lock (s : store) : Go.result store :=
  if paramsLock s then Go.Blocked
  else Go.Return (Store (paramsMap s) true).

Definition Unlock (s : store) : Go.result store :=
  if paramsLock s then Go.Return (Store (paramsMap s) false)
  else Go.Panic Go.UnlockOfUnlockedMutex.

Definition defaultSetParams (r : reqptr) (p : params) (s : store)
  : Go.result store :=
  do s1 <~ Lock s;
  Unlock (Store (<[r := p]> (paramsMap s1)) (paramsLock s1)).


Definition defaultParams (r : reqptr) (s : store) : Go.result (params * store) :=
  match r with
  | None => Go.Return (None, s)
  | Some _ =>
      do s1 <~ Lock s;
      match paramsMap s1 !! r with
      | Some p => do s2 <~ Unlock s1; Go.Return (p, s2)
      | None => do s2 <~ Unlock s1; Go.Return (None, s2)
      end
  end.


Lemma set_free (r : reqptr) (p : params) (s : store) :
  paramsLock s = false ->
  defaultSetParams r p s = Go.Return (Store (<[r := p]> (paramsMap s)) false).
Proof.
  intros Hl. destruct s as [m l]. cbn in Hl. subst l. reflexivity.
Qed.


(** X7. In this version the parameters set for a non-nil request are read
    back as they are, nil included, and a nil one still occupies an entry of
    the map; what is set for the nil request is stored too but can never be
    read, since reading the nil request returns nil without looking at the
    map, even with the mutex held. *)
Theorem set_get (a : positive) (p : params) (s : store) :
  paramsLock s = false ->
  (exists s1, defaultSetParams (Some a) p s = Go.Return s1 /\
              defaultParams (Some a) s1 = Go.Return (p, s1) /\
              paramsMap s1 !! Some a = Some p) /\
  (exists s1, defaultSetParams None p s = Go.Return s1 /\
              paramsMap s1 !! None = Some p /\
              defaultParams None s1 = Go.Return (None, s1)) /\
  (forall s', defaultParams None s' = Go.Return (None, s')).
Proof.
  intros Hl. rewrite !set_free by done. split; [|split; [|done]].
  - eexists. split; [reflexivity|]. split; [|apply lookup_insert_eq].
    unfold defaultParams, Lock, Unlock. cbn. by rewrite lookup_insert_eq.
  - eexists. split; [reflexivity|]. split; [apply lookup_insert_eq | done].
Qed.


Lemma set_get_witness :
  (exists s1, defaultSetParams (Some 1%positive) None init = Go.Return s1 /\
              defaultParams (Some 1%positive) s1 = Go.Return (None, s1) /\
              paramsMap s1 !! Some 1%positive = Some None) /\
  (exists s1, defaultSetParams None None init = Go.Return s1 /\
              paramsMap s1 !! None = Some None /\
              defaultParams None s1 = Go.Return (None, s1)) /\
  (forall s', defaultParams None s' = Go.Return (None, s')).
Proof. apply (set_get 1%positive None init). reflexivity. Defined.



End ParamStoreUnset.

(** ** The request contexts (context.go) *)
Module ContextStore.

(** What [ctx.Value("params")] can hold when it is not nil: a
    [map[string]string], nil or not, or a value of another type. *)
Inductive value :=
| VMap (m : option (gmap string string))
| VOther.

Definition ErrContextNotSet : string := "Context not set.".

Section ContextStore.

(** The non-nil values of [context.Context], with [ctx.Value("params")]
    ([None]: nil) and [context.WithValue(ctx, "params", v)]. *)
Variable Ctx : Type.
Variable Value : Ctx -> option value.
Variable WithValue : Ctx -> value -> Ctx.

(** A context made by [WithValue] holds the value it was given. *)
Hypothesis Value_WithValue : forall c v, Value (WithValue c v) = Some v.

(** The package variables [contexts] and [contextsLock] ([true]: held). A
    key is a request pointer, nil included; an entry is a
    [context.Context], nil included. *)
Record store := Store {
  contexts : gmap (option positive) (option Ctx);
  contextsLock : bool
}.

(** A step on the package variables that returns, panics or blocks. *)
Definition step (A : Type) : Type := store -> store * Go.result A.

Definition ret {A} (a : A) : step A := fun s => (s, Go.Return a).

Definition panic {A} (v : Go.panic_value) : step A := fun s => (s, Go.Panic v).

Definition sbind {A B} (m : step A) (k : A -> step B) : step B :=
  fun s =>
    match m s with
    | (s1, Go.Return a) => k a s1
    | (s1, Go.Panic v) => (s1, Go.Panic v)
    | (s1, Go.Blocked) => (s1, Go.Blocked)
    end.

Notation "'seq' x <~ c ; k" := (sbind c (fun x => k))
  (at level 10, x name, c at level 100, k at level 200).

Definition Lock : step unit :=
  fun s => if contextsLock s then (s, Go.Blocked)
           else (Store (contexts s) true, Go.Return tt).

Definition Unlock : step unit :=
  fun s => if contextsLock s then (Store (contexts s) false, Go.Return tt)
           else (s, Go.Panic Go.UnlockOfUnlockedMutex).

(** [Context] *)
Definition Context (r : option positive) : step (option Ctx) :=
  seq _ <~ Lock;
  fun s =>
    match contexts s !! r with
    | Some ctx => (seq _ <~ Unlock; ret ctx) s
    | None =>
        (seq _ <~ Unlock; panic (Go.PanicError ErrContextNotSet)) s
    end.

(** [SetContext] *)
Definition SetContext (r : option positive) (ctx : option Ctx) : step unit :=
  seq _ <~ Lock;
  seq _ <~ (fun s => (Store (<[r := ctx]> (contexts s)) (contextsLock s),
                       Go.Return tt));
  Unlock.

(** [unsetContext] *)
Definition unsetContext (r : option positive) : step unit :=
  seq _ <~ Lock;
  seq _ <~ (fun s => (Store (delete r (contexts s)) (contextsLock s),
                       Go.Return tt));
  Unlock.

(** The type assertion [ps.(map[string]string)]. *)
Definition assert_map (ps : value) : step (option (gmap string string)) :=
  match ps with
  | VMap m => ret m
  | VOther => panic (Go.PanicError "interface conversion")
  end.

(** [Params]: the parameters of the request's context; a context without
    parameters gets an empty map first. *)
Definition Params (r : option positive) : step (option (gmap string string)) :=
  seq ctx <~ Context r;
  match ctx with
  | None => panic Go.NilDereference
  | Some c =>
      match Value c with
      | None =>
          let ps := VMap (Some ∅) in
          seq _ <~ SetContext r (Some (WithValue c ps));
          assert_map ps
      | Some ps => assert_map ps
      end
  end.

Lemma Context_free (r : option positive) (s : store) :
  contextsLock s = false ->
  Context r s = (s, match contexts s !! r with
                    | Some ctx => Go.Return ctx
                    | None => Go.Panic (Go.PanicError ErrContextNotSet)
                    end).
Proof.
  intros Hl. destruct s as [m l]. cbn in Hl. subst l.
  unfold Context, sbind, Lock, Unlock, ret, panic. cbn.
  by destruct (m !! r).
Qed.

Lemma SetContext_free (r : option positive) (ctx : option Ctx) (s : store) :
  contextsLock s = false ->
  SetContext r ctx s = (Store (<[r := ctx]> (contexts s)) false, Go.Return tt).
Proof.
  intros Hl. destruct s as [m l]. cbn in Hl. subst l. reflexivity.
Qed.

Lemma unsetContext_free (r : option positive) (s : store) :
  contextsLock s = false ->
  unsetContext r s = (Store (delete r (contexts s)) false, Go.Return tt).
Proof.
  intros Hl. destruct s as [m l]. cbn in Hl. subst l. reflexivity.
Qed.

(** X9. With the mutex free, [Context] returns the request's entry and
    panics with [ErrContextNotSet] exactly when there is none, leaving the
    store as it was in both cases. It returns what [SetContext] stored, and
    after [unsetContext] it panics. *)
Theorem Context_round_trip (r : option positive) (ctx : option Ctx) (s : store) :
  contextsLock s = false ->
  Context r s = (s, match contexts s !! r with
                    | Some c => Go.Return c
                    | None => Go.Panic (Go.PanicError ErrContextNotSet)
                    end) /\
  (exists s1, SetContext r ctx s = (s1, Go.Return tt) /\
              Context r s1 = (s1, Go.Return ctx)) /\
  (exists s2, unsetContext r s = (s2, Go.Return tt) /\
              Context r s2 = (s2, Go.Panic (Go.PanicError ErrContextNotSet))).
Proof.
  intros Hl. split; [by apply Context_free|]. split.
  - rewrite SetContext_free by done. eexists. split; [reflexivity|].
    rewrite Context_free by done. cbn. by rewrite lookup_insert_eq.
  - rewrite unsetContext_free by done. eexists. split; [reflexivity|].
    rewrite Context_free by done. cbn. by rewrite lookup_delete_eq.
Qed.

(** X10. [Params] on a request whose context has no parameters yet returns
    an empty map and replaces the request's context by one that holds this
    map; a second call returns the map again and changes nothing. *)
Theorem Params_initialises_once (r : option positive) (c : Ctx) (s : store) :
  contextsLock s = false ->
  contexts s !! r = Some (Some c) -> Value c = None ->
  exists s1,
    Params r s = (s1, Go.Return (Some ∅)) /\
    contexts s1 !! r = Some (Some (WithValue c (VMap (Some ∅)))) /\
    (forall r', r' <> r -> contexts s1 !! r' = contexts s !! r') /\
    Params r s1 = (s1, Go.Return (Some ∅)).
Proof.
  intros Hl Hr Hv.
  exists (Store (<[r := Some (WithValue c (VMap (Some ∅)))]> (contexts s)) false).
  assert (H1 : Params r s
               = (Store (<[r := Some (WithValue c (VMap (Some ∅)))]> (contexts s))
                    false, Go.Return (Some ∅))).
  { unfold Params, sbind. rewrite Context_free, Hr, Hv by done.
    by rewrite SetContext_free. }
  split; [done|]. split; [apply lookup_insert_eq|]. split.
  - intros r' Hne. cbn. by rewrite lookup_insert_ne.
  - unfold Params, sbind. rewrite Context_free by done. cbn [contexts].
    rewrite lookup_insert_eq, Value_WithValue. done.
Qed.

(** X11. [Params] changes the store only when it initialises. With the
    mutex free it panics with [ErrContextNotSet] for a request without a
    context, on the nil dereference for a nil context, and on the type
    assertion for parameters of another type; for a context that holds a
    map it returns that map, nil or not. The store is left as it was in all
    four cases. *)
Theorem Params_reads (r : option positive) (s : store) :
  contextsLock s = false ->
  (contexts s !! r = None ->
   Params r s = (s, Go.Panic (Go.PanicError ErrContextNotSet))) /\
  (contexts s !! r = Some None ->
   Params r s = (s, Go.Panic Go.NilDereference)) /\
  (forall c, contexts s !! r = Some (Some c) -> Value c = Some VOther ->
   Params r s = (s, Go.Panic (Go.PanicError "interface conversion"))) /\
  (forall c m, contexts s !! r = Some (Some c) -> Value c = Some (VMap m) ->
   Params r s = (s, Go.Return m)).
Proof.
  intros Hl. unfold Params, sbind. rewrite Context_free by done.
  split; [by intros ->|]. split; [by intros ->|]. split.
  - intros c -> ->. done.
  - intros c m -> ->. done.
Qed.

End ContextStore.

Arguments Store {Ctx} contexts contextsLock.
Arguments contexts {Ctx} s.
Arguments contextsLock {Ctx} s.
Arguments Context {Ctx} r s.
Arguments SetContext {Ctx} r ctx s.
Arguments unsetContext {Ctx} r s.
Arguments Params {Ctx} Value WithValue r s.

(** Contexts as the list of the values given to [WithValue], the last one
    first. *)
Definition held (c : list value) : option value := head c.
Definition holding (c : list value) (v : value) : list value := v :: c.

Definition one_request : store (list value) :=
  Store {[ Some 1%positive := Some [] ]} false.

Lemma Context_round_trip_witness :
  Context (Some 1%positive) one_request
  = (one_request, Go.Return (Some [])) /\
  (exists s1, SetContext (Some 1%positive) (Some [VOther]) one_request
              = (s1, Go.Return tt) /\
              Context (Some 1%positive) s1 = (s1, Go.Return (Some [VOther]))) /\
  (exists s2, unsetContext (Some 1%positive) one_request = (s2, Go.Return tt) /\
              Context (Some 1%positive) s2
              = (s2, Go.Panic (Go.PanicError ErrContextNotSet))).
Proof.
  apply (Context_round_trip (list value) (Some 1%positive) (Some [VOther])
           one_request).
  reflexivity.
Defined.

Lemma Params_initialises_once_witness :
  exists s1,
    Params held holding (Some 1%positive) one_request
    = (s1, Go.Return (Some ∅)) /\
    contexts s1 !! Some 1%positive = Some (Some [VMap (Some ∅)]) /\
    (forall r', r' <> Some 1%positive ->
                contexts s1 !! r' = contexts one_request !! r') /\
    Params held holding (Some 1%positive) s1 = (s1, Go.Return (Some ∅)).
Proof.
  apply (Params_initialises_once (list value) held holding
           (fun c v => eq_refl) (Some 1%positive) [] one_request).
  - reflexivity.
  - reflexivity.
  - reflexivity.
Defined.

Lemma Params_reads_witness :
  (contexts one_request !! Some 2%positive = None ->
   Params held holding (Some 2%positive) one_request
   = (one_request, Go.Panic (Go.PanicError ErrContextNotSet))) /\
  (contexts one_request !! Some 2%positive = Some None ->
   Params held holding (Some 2%positive) one_request
   = (one_request, Go.Panic Go.NilDereference)) /\
  (forall c, contexts one_request !! Some 2%positive = Some (Some c) ->
             held c = Some VOther ->
   Params held holding (Some 2%positive) one_request
   = (one_request, Go.Panic (Go.PanicError "interface conversion"))) /\
  (forall c m, contexts one_request !! Some 2%positive = Some (Some c) ->
               held c = Some (VMap m) ->
   Params held holding (Some 2%positive) one_request = (one_request, Go.Return m)).
Proof.
  apply (Params_reads (list value) held holding (Some 2%positive) one_request).
  reflexivity.
Defined.

End ContextStore.

(** ** Registration (router.go): [Use], [Handler], [HandlerFunc], the method
    shortcuts and [ServeFiles] *)
Module Registration.
Section Registration.

(** The non-nil values of [http.Handler], and the default mux. *)
Variable Hdl : Type.
Variable DefaultServeMux : Hdl.

(** The routing tree of tree.go with its zero node, [addRoute] and
    [getValue], as the router uses them. *)
Variable node : Type.
Variable new_node : node.
Variable addRoute : node -> string -> Chain.handler Hdl -> node * Go.result unit.
Variable getValue :
  node -> string ->
  Go.result (Chain.handler Hdl * option (gmap string string) * bool).

Abbreviation Router := (Router.Router Hdl node).
Abbreviation tree_of := (@Router.tree_of Hdl node).
Abbreviation Handle := (Router.Handle DefaultServeMux new_node addRoute).
Abbreviation Lookup := (Router.Lookup getValue).

Definition with_middleware (r : Router) (mw : list (Chain.mwfunc Hdl)) : Router :=
  {| Router.trees := Router.trees r;
     Router.middleware := Some mw;
     Router.RedirectTrailingSlash := Router.RedirectTrailingSlash Hdl node r;
     Router.RedirectFixedPath := Router.RedirectFixedPath Hdl node r;
     Router.HandleMethodNotAllowed := Router.HandleMethodNotAllowed Hdl node r;
     Router.NotFound := Router.NotFound Hdl node r;
     Router.MethodNotAllowed := Router.MethodNotAllowed Hdl node r;
     Router.PanicHandler := Router.PanicHandler Hdl node r |}.

(** [Use]: the middleware are appended to the chain [r.middleware] points
    to; through a nil pointer this panics. *)
Definition Use (r : Router) (mws : list (Chain.mwfunc Hdl))
  : Router * Go.result unit :=
  match Router.middleware r with
  | Some mw => (with_middleware r (Chain.Use mw mws), Go.Return tt)
  | None => (r, Go.Panic Go.NilDereference)
  end.

(** [Handler(method, path, middleware...)(handle)]: as [Handle], for an
    [http.Handler] that may be nil. *)
Definition Handler (r : Router) (method path : string)
    (mws : list (Chain.mwfunc Hdl)) (handle : Chain.handler Hdl)
  : Router * Go.result unit :=
  match String.get 0 path with
  | None => (r, Go.Panic Go.IndexOutOfRange)
  | Some c =>
      if negb (Ascii.eqb c "/")
      then (r, Go.Panic (Go.PanicString "path must begin with '/'"))
      else
        let t := match Router.trees r with
                 | Some t => t
                 | None => ∅
                 end in
        let '(root, t) := match t !! method with
                          | Some root => (root, t)
                          | None => (new_node, <[method := new_node]> t)
                          end in
        match Chain.Then DefaultServeMux (Chain.NewMiddleware mws) handle with
        | Go.Return h =>
            let '(root', res) := addRoute root path h in
            (Router.with_trees Hdl node r (<[method := root']> t), res)
        | Go.Panic v => (Router.with_trees Hdl node r t, Go.Panic v)
        | Go.Blocked => (Router.with_trees Hdl node r t, Go.Blocked)
        end
  end.

(** [HandlerFunc] *)
Definition HandlerFunc (r : Router) (method path : string)
    (mws : list (Chain.mwfunc Hdl)) (handler : Hdl) : Router * Go.result unit :=
  Handle r method path mws handler.

(** The shortcuts besides [GET] and [POST]. *)
Definition HEAD (r : Router) path mws handle := Handle r "HEAD" path mws handle.
Definition PUT (r : Router) path mws handle := Handle r "PUT" path mws handle.
Definition PATCH (r : Router) path mws handle := Handle r "PATCH" path mws handle.
Definition DELETE (r : Router) path mws handle := Handle r "DELETE" path mws handle.

(** [len(path) < 10 || path[len(path)-10:] != "/*filepath"], negated. *)
Definition ends_with_filepath (path : string) : bool :=
  negb (String.length path <? 10)%nat &&
  String.eqb (String.substring (String.length path - 10) 10 path) "/*filepath".

(** [ServeFiles]: [files] is the handler that serves the file named by the
    [filepath] parameter from the file server of the root. *)
Definition ServeFiles (r : Router) (path : string) (files : Hdl)
    (mws : list (Chain.mwfunc Hdl)) : Router * Go.result unit :=
  if ends_with_filepath path
  then Handle r "GET" path mws files
  else (r, Go.Panic (Go.PanicString "path must end with /*filepath")).

(** The tree a registration for [method] works on. *)
Definition root_of (r : Router) (method : string) : node :=
  match tree_of r method with
  | Some root => root
  | None => new_node
  end.

Lemma tree_of_with_trees (r : Router) (t : gmap string node) (method : string) :
  tree_of (Router.with_trees Hdl node r t) method = t !! method.
Proof. reflexivity. Qed.

(** X12. A registration for one method, whatever its outcome, leaves the
    tree of every other method, and so what [Lookup] finds there, as it
    was. *)
Theorem Handle_other_method (r : Router) (method method' path path' : string)
    (mws : list (Chain.mwfunc Hdl)) (handle : Hdl) :
  method <> method' ->
  tree_of (Handle r method path mws handle).1 method' = tree_of r method' /\
  Lookup (Handle r method path mws handle).1 method' path' = Lookup r method' path'.
Proof.
  intros Hne.
  assert (Ht : tree_of (Handle r method path mws handle).1 method'
               = tree_of r method').
  { unfold Router.Handle.
    destruct (String.get 0 path) as [c|]; [|done].
    destruct (negb (Ascii.eqb c "/")); [done|].
    assert (Hbase : match Router.trees r with Some t => t | None => ∅ end
                    !! method' = tree_of r method').
    { unfold Router.tree_of. by destruct (Router.trees r). }
    destruct (match Router.trees r with Some t => t | None => ∅ end !! method)
      as [root|];
      destruct (Chain.Then _ _ _) as [h| |];
      try destruct (addRoute _ path h) as [root' res];
      cbn [fst]; rewrite tree_of_with_trees, ?lookup_insert_ne by done; done. }
  split; [done|]. unfold Router.Lookup. by rewrite Ht.
Qed.

(** The trees after the method has got its tree, if it had none. *)
Definition trees_for (r : Router) (method : string) : gmap string node :=
  let t := match Router.trees r with
           | Some t => t
           | None => ∅
           end in
  match t !! method with
  | Some _ => t
  | None => <[method := new_node]> t
  end.

Lemma trees_for_method (r : Router) (method : string) :
  trees_for r method !! method = Some (root_of r method).
Proof.
  unfold trees_for, root_of, Router.tree_of.
  destruct (Router.trees r) as [t|].
  - destruct (t !! method) as [root|] eqn:Hm; [done | apply lookup_insert_eq].
  - rewrite lookup_empty. apply lookup_insert_eq.
Qed.

Lemma Handle_slash (r : Router) (method path : string)
    (mws : list (Chain.mwfunc Hdl)) (handle : Hdl) :
  String.get 0 path = Some "/"%char ->
  Handle r method path mws handle =
  match Chain.Then DefaultServeMux (Chain.NewMiddleware mws) (Some handle) with
  | Go.Return h =>
      (Router.with_trees Hdl node r
         (<[method := (addRoute (root_of r method) path h).1]>
            (trees_for r method)),
       (addRoute (root_of r method) path h).2)
  | Go.Panic v => (Router.with_trees Hdl node r (trees_for r method), Go.Panic v)
  | Go.Blocked => (Router.with_trees Hdl node r (trees_for r method), Go.Blocked)
  end.
Proof.
  intros Hget. unfold Router.Handle, trees_for, root_of, Router.tree_of.
  rewrite Hget. change (negb (Ascii.eqb "/" "/")) with false. cbv iota.
  destruct (Router.trees r) as [t|].
  - destruct (t !! method) as [root|];
      destruct (Chain.Then _ _ _) as [h| |]; try done;
      by destruct (addRoute _ path h).
  - rewrite lookup_empty.
    destruct (Chain.Then _ _ _) as [h| |]; try done.
    by destruct (addRoute _ path h).
Qed.

Lemma Handle_plain (r : Router) (method path : string) (handle : Hdl) :
  String.get 0 path = Some "/"%char ->
  let added := addRoute (root_of r method) path (Some handle) in
  Handle r method path [] handle
  = (Router.with_trees Hdl node r (<[method := added.1]> (trees_for r method)),
     added.2) /\
  tree_of (Router.with_trees Hdl node r
             (<[method := added.1]> (trees_for r method))) method
  = Some added.1.
Proof.
  intros Hget added. rewrite (Handle_slash r method path [] handle Hget).
  split; [done|]. rewrite tree_of_with_trees. apply lookup_insert_eq.
Qed.

(** X13. A registration without middleware for a path that begins with a
    slash hands [addRoute] the handler itself, on the method's tree or on a
    new node. Its outcome is [addRoute]'s, and the node [addRoute] leaves is
    the method's tree afterwards: [Lookup] for the method is [getValue] on
    that node. *)
Theorem Handle_registers_for_Lookup (r : Router) (method path : string) (handle : Hdl) :
  String.get 0 path = Some "/"%char ->
  let added := addRoute (root_of r method) path (Some handle) in
  (Handle r method path [] handle).2 = added.2 /\
  tree_of (Handle r method path [] handle).1 method = Some added.1 /\
  (forall p, Lookup (Handle r method path [] handle).1 method p
             = getValue added.1 p).
Proof.
  intros Hget added.
  destruct (Handle_plain r method path handle Hget) as [-> H2].
  cbn [fst snd]. fold added. split; [done|]. split; [done|].
  intros p. unfold Router.Lookup. fold added in H2. by rewrite H2.
Qed.

(** X14. A registration with middleware, none of them nil and all of them
    returning, never reaches [addRoute]: for a path that begins with a slash
    it panics on the call of a nil func, and the method is left with the
    tree it had or, if it had none, with a new empty node. *)
Theorem Handle_with_middleware_panics (r : Router) (method path : string)
    (fs : list (Chain.handler Hdl -> Chain.handler Hdl)) (handle : Hdl) :
  String.get 0 path = Some "/"%char -> fs <> [] ->
  (Handle r method path (Chain.returning <$> fs) handle).2 = Go.Panic Go.NilDereference /\
  tree_of (Handle r method path (Chain.returning <$> fs) handle).1 method
  = Some (root_of r method).
Proof.
  intros Hget Hfs. rewrite (Handle_slash r method path _ handle Hget).
  assert (Hpanic : Chain.Then DefaultServeMux (Chain.NewMiddleware (Chain.returning <$> fs))
                     (Some handle) = Go.Panic Go.NilDereference).
  { destruct fs as [|f fs]; [done|].
    unfold Chain.Then. rewrite Chain.Then_loop_nest.
    unfold Chain.NewMiddleware. rewrite length_fmap. cbn [length Nat.eqb].
    apply Chain.nest_nil_entry. }
  rewrite Hpanic. cbn [fst snd]. split; [done|].
  rewrite tree_of_with_trees. apply trees_for_method.
Qed.

Lemma get_0_length (path : string) (n : nat) :
  (S n <= String.length path)%nat -> exists c, String.get 0 path = Some c.
Proof. destruct path as [|c path]; cbn; [lia | by exists c]. Qed.

(** X15. [ServeFiles] never reads past the end of the path: a path it
    accepts has at least the ten bytes of the suffix, so [path[0]] exists,
    and the call panics with the message of [Handle] if that byte is not a
    slash and goes on as [GET] does otherwise. Any other path, the empty one
    included, panics with the message of [ServeFiles] and leaves the router
    as it was. *)
Theorem ServeFiles_guard (r : Router) (path : string) (files : Hdl)
    (mws : list (Chain.mwfunc Hdl)) :
  if ends_with_filepath path
  then exists c, String.get 0 path = Some c /\
       ServeFiles r path files mws =
       (if Ascii.eqb c "/" then Handle r "GET" path mws files
        else (r, Go.Panic (Go.PanicString "path must begin with '/'")))
  else ServeFiles r path files mws
       = (r, Go.Panic (Go.PanicString "path must end with /*filepath")).
Proof.
  unfold ServeFiles. destruct (ends_with_filepath path) eqn:Hends; [|done].
  apply andb_true_iff in Hends as [Hlen _].
  apply negb_true_iff, Nat.ltb_ge in Hlen.
  destruct (get_0_length path 9 Hlen) as [c Hc].
  exists c. split; [done|].
  destruct (Ascii.eqb c "/") eqn:Hslash; [done|].
  unfold Router.Handle. by rewrite Hc, Hslash.
Qed.

Lemma Handler_Handle (r : Router) (method path : string)
    (mws : list (Chain.mwfunc Hdl)) (handle : Hdl) :
  Handler r method path mws None = Handle r method path mws DefaultServeMux /\
  Handler r method path mws (Some handle) = Handle r method path mws handle.
Proof. split; reflexivity. Qed.

(** X16. [Handler] with a nil handler registers the default mux: for a path
    that begins with a slash and no middleware, [addRoute] is handed
    [http.DefaultServeMux], its outcome is the outcome of the registration,
    and [Lookup] for the method is [getValue] on the node it leaves. *)
Theorem Handler_nil_registers_default (r : Router) (method path : string) :
  String.get 0 path = Some "/"%char ->
  let added := addRoute (root_of r method) path (Some DefaultServeMux) in
  (Handler r method path [] None).2 = added.2 /\
  tree_of (Handler r method path [] None).1 method = Some added.1 /\
  (forall p, Lookup (Handler r method path [] None).1 method p
             = getValue added.1 p).
Proof.
  intros Hget added.
  destruct (Handler_Handle r method path [] DefaultServeMux) as [-> _].
  destruct (Handle_plain r method path DefaultServeMux Hget) as [-> H2].
  cbn [fst snd]. fold added. split; [done|]. split; [done|].
  intros p. unfold Router.Lookup. fold added in H2. by rewrite H2.
Qed.

End Registration.

(** A router without routes, its handlers named by strings. *)
Definition fresh : Router.Router string (HttpRouter.node string) := Router.New.

Lemma Handle_other_method_witness :
  Router.tree_of (HttpRouter.Handle fresh "GET" "/a" [] "index").1 "POST"
  = Router.tree_of fresh "POST" /\
  Router.Lookup HttpRouter.getValue
    (HttpRouter.Handle fresh "GET" "/a" [] "index").1 "POST" "/a"
  = Router.Lookup HttpRouter.getValue fresh "POST" "/a".
Proof.
  apply (Handle_other_method string "DefaultServeMux"%string
           (HttpRouter.node string) Tree.empty HttpRouter.addRoute
           HttpRouter.getValue fresh "GET" "POST" "/a" "/a" [] "index"%string).
  discriminate.
Defined.

Lemma Handle_registers_for_Lookup_witness :
  let added := HttpRouter.addRoute
                 (root_of string (HttpRouter.node string) Tree.empty fresh "GET")
                 "/a" (Some "index"%string) in
  (HttpRouter.Handle fresh "GET" "/a" [] "index").2 = added.2 /\
  Router.tree_of (HttpRouter.Handle fresh "GET" "/a" [] "index").1 "GET"
  = Some added.1 /\
  (forall p, Router.Lookup HttpRouter.getValue
               (HttpRouter.Handle fresh "GET" "/a" [] "index").1 "GET" p
             = HttpRouter.getValue added.1 p).
Proof.
  apply (Handle_registers_for_Lookup string "DefaultServeMux"%string
           (HttpRouter.node string) Tree.empty HttpRouter.addRoute
           HttpRouter.getValue fresh "GET" "/a" "index"%string).
  reflexivity.
Defined.

Lemma Handle_with_middleware_panics_witness :
  (HttpRouter.Handle fresh "GET" "/a" (Chain.returning <$> [fun h => h]) "index").2
  = Go.Panic Go.NilDereference /\
  Router.tree_of
    (HttpRouter.Handle fresh "GET" "/a" (Chain.returning <$> [fun h => h]) "index").1
    "GET"
  = Some (root_of string (HttpRouter.node string) Tree.empty fresh "GET").
Proof.
  apply (Handle_with_middleware_panics string "DefaultServeMux"%string
           (HttpRouter.node string) Tree.empty HttpRouter.addRoute
           fresh "GET" "/a" [fun h => h] "index"%string).
  - reflexivity.
  - discriminate.
Defined.

Lemma Handler_nil_registers_default_witness :
  let added := HttpRouter.addRoute
                 (root_of string (HttpRouter.node string) Tree.empty fresh "GET")
                 "/a" (Some "DefaultServeMux"%string) in
  (Handler string "DefaultServeMux"%string (HttpRouter.node string) Tree.empty
     HttpRouter.addRoute fresh "GET" "/a" [] None).2 = added.2 /\
  Router.tree_of
    (Handler string "DefaultServeMux"%string (HttpRouter.node string) Tree.empty
       HttpRouter.addRoute fresh "GET" "/a" [] None).1 "GET"
  = Some added.1 /\
  (forall p, Router.Lookup HttpRouter.getValue
               (Handler string "DefaultServeMux"%string (HttpRouter.node string)
                  Tree.empty HttpRouter.addRoute fresh "GET" "/a" [] None).1
               "GET" p
             = HttpRouter.getValue added.1 p).
Proof.
  apply (Handler_nil_registers_default string "DefaultServeMux"%string
           (HttpRouter.node string) Tree.empty HttpRouter.addRoute
           HttpRouter.getValue fresh "GET" "/a").
  reflexivity.
Defined.

End Registration.


(** * Dispatch: what [ServeHTTP] answers a request with *)

Module Dispatch.
Import Router.

(** The calls that answer a request: the matched handler, a redirect, the
    405 answer and the 404 answer. *)
Definition answers (e : event) : bool :=
  match e with
  | EvHandler | EvRedirect _ _ | EvMethodNotAllowed | EvNotFound => true
  | _ => false
  end.


(** [req.Method != "CONNECT" && path != "/"] *)
Definition may_redirect (req : Request) : bool :=
  negb (Method req =? "CONNECT")%string && negb (Path req =? "/")%string.

(** The status code of a redirect: 301 for GET, 307 for any other method. *)
Definition redirect_code (req : Request) : nat :=
  if negb (Method req =? "GET")%string then 307 else 301.

(** A match attempt of the 405 block: on the request's path, in the tree of
    another method that [range] yields. *)
Definition probe (req : Request) (order : list string) (e : event) : Prop :=
  match e with
  | EvGetValue m p => p = Path req /\ m <> Method req /\ m ∈ order
  | _ => False
  end.

Section Dispatch.

Variable Hdl : Type.
Variable DefaultServeMux : Hdl.
Variable node : Type.
Variable getValue :
  node -> string ->
  Go.result (Chain.handler Hdl * option (gmap string string) * bool).
Variable findCaseInsensitivePath : node -> string -> bool -> string * bool.
Variable CleanPath : string -> string.
Variable http_NotFound : Hdl.
Variable run_handler :
  Chain.handler Hdl -> option (gmap string string) -> Go.result unit.
Variable serve_handler : Hdl -> Go.result unit.

Abbreviation router := (Router.Router Hdl node).
Abbreviation serve_method :=
  (Router.serve_method Hdl DefaultServeMux node getValue
     findCaseInsensitivePath CleanPath run_handler).
Abbreviation serve_405 := (Router.serve_405 Hdl node getValue serve_handler).
Abbreviation serve_404 :=
  (Router.serve_404 Hdl DefaultServeMux node http_NotFound serve_handler).
Abbreviation serve_body :=
  (Router.serve_body Hdl DefaultServeMux node getValue
     findCaseInsensitivePath CleanPath http_NotFound run_handler serve_handler).
Abbreviation ServeHTTP :=
  (Router.ServeHTTP DefaultServeMux getValue findCaseInsensitivePath CleanPath
     http_NotFound run_handler serve_handler).

(** No handler is registered under [method] for the request's path: the
    method has no tree, or [getValue] on it returns a nil handler. *)
Definition unmatched (r : router) (req : Request) (method : string) : Prop :=
  forall root, tree_of r method = Some root ->
    exists ps tsr, getValue root (Path req) = Go.Return (None, ps, tsr).

(** The 405 answer: [r.MethodNotAllowed] when it is set, [http.Error], which
    returns, when it is not. *)
Definition method_not_allowed (r : router) : Go.result unit :=
  match MethodNotAllowed Hdl node r with
  | Some f => serve_handler f
  | None => Go.Return tt
  end.

(** The handler the 404 block chains the middleware around: [r.NotFound]
    when it is set, [http.NotFound] when it is not. *)
Definition not_found_handler (r : router) : Hdl :=
  match NotFound Hdl node r with
  | Some h => h
  | None => http_NotFound
  end.

(** The deferred [recv] on a panic of the body: the panic handler, when one
    is set, is called with the value and decides how [ServeHTTP] ends. *)
Definition recv (r : router) (t : list event) (v : Go.panic_value)
  : traced unit :=
  match PanicHandler Hdl node r with
  | Some recover => (t ++ [EvPanicHandler v], recover v)
  | None => (t, Go.Panic v)
  end.

Lemma ServeHTTP_recv (r : router) (req : Request) (order : list string) :
  ServeHTTP r req order =
  match serve_body r req order with
  | (t, Go.Panic v) => recv r t v
  | other => other
  end.
Proof.
  unfold Router.ServeHTTP, recv.
  destruct (Router.serve_body _ _ _ _ _ _ _ _ _ r req order) as [t [[]|v|]];
    try done.
Qed.

(** The handler after [r.middleware.Then(next)], which is only called for a
    chain that is not empty. *)
Lemma middleware_outcome (mw : list (Chain.mwfunc Hdl)) (h : Hdl) :
  (if (0 <? length mw)%nat
   then Chain.Then DefaultServeMux mw (Some h) else Go.Return (Some h))
  = Chain.nest mw (Some h).
Proof.
  destruct mw as [|m mw]; [done|].
  cbn [length Nat.ltb Nat.leb]. unfold Chain.Then.
  apply Chain.Then_loop_nest.
Qed.

(** The first block of [ServeHTTP], outcome by outcome. *)
Lemma serve_method_cases (r : router) (req : Request) :
  serve_method r req =
  match tree_of r (Method req) with
  | None => ([], Go.Return false)
  | Some root =>
      let g := EvGetValue (Method req) (Path req) in
      match getValue root (Path req) with
      | Go.Panic v => ([g], Go.Panic v)
      | Go.Blocked => ([g], Go.Blocked)
      | Go.Return (Some h, ps, tsr) =>
          match middleware r with
          | None => ([g], Go.Panic Go.NilDereference)
          | Some mw =>
              match Chain.nest mw (Some h) with
              | Go.Return next =>
                  match run_handler next ps with
                  | Go.Return _ => ([g; EvHandler], Go.Return true)
                  | Go.Panic v => ([g; EvHandler], Go.Panic v)
                  | Go.Blocked => ([g; EvHandler], Go.Blocked)
                  end
              | Go.Panic v => ([g], Go.Panic v)
              | Go.Blocked => ([g], Go.Blocked)
              end
          end
      | Go.Return (None, ps, tsr) =>
          if may_redirect req
          then
            if tsr && RedirectTrailingSlash Hdl node r
            then ([g; EvRedirect (toggle_trailing_slash (Path req))
                        (redirect_code req)], Go.Return true)
            else if RedirectFixedPath Hdl node r
            then
              let c := EvCleanPath (Path req) in
              let f := EvFindCaseInsensitivePath (Method req)
                         (CleanPath (Path req))
                         (RedirectTrailingSlash Hdl node r) in
              let fixed := findCaseInsensitivePath root (CleanPath (Path req))
                             (RedirectTrailingSlash Hdl node r) in
              if fixed.2
              then ([g; c; f; EvRedirect fixed.1 (redirect_code req)],
                    Go.Return true)
              else ([g; c; f], Go.Return false)
            else ([g], Go.Return false)
          else ([g], Go.Return false)
      end
  end.
Proof.
  unfold Router.serve_method, call_getValue, call_CleanPath,
    call_findCaseInsensitivePath, may_redirect, redirect_code.
  destruct (tree_of r (Method req)) as [root|]; [|done].
  cbn. destruct (getValue root (Path req)) as [[[[h|] ps] tsr]|v|]; cbn;
    [| |done..].
  - destruct (middleware r) as [mw|]; cbn; [|done].
    pose proof (middleware_outcome mw h) as Hmw. cbn in Hmw.
    destruct (Chain.nest mw (Some h)) as [next|v|].
    + destruct mw as [|m mw]; cbn in *.
      * injection Hmw as <-. by destruct (run_handler _ ps).
      * rewrite Hmw. cbn. by destruct (run_handler _ ps).
    + destruct mw as [|m mw]; cbn in *; [done|]. by rewrite Hmw.
    + destruct mw as [|m mw]; cbn in *; [done|]. by rewrite Hmw.
  - destruct (negb (Method req =? "CONNECT")%string
              && negb (Path req =? "/")%string); [|done].
    destruct (tsr && RedirectTrailingSlash Hdl node r); [done|].
    destruct (RedirectFixedPath Hdl node r); [|done].
    cbn. destruct (findCaseInsensitivePath _ _ _) as [fixedPath found].
    by destruct found.
Qed.

(** The 404 block: the middleware chain is built around the not-found
    handler and what it returns serves the request; a middleware that is nil
    or panics, and a nil handler returned by the chain, stop the block
    before the answer. *)
Lemma serve_404_cases (r : router) :
  serve_404 r =
  match middleware r with
  | None => ([], Go.Panic Go.NilDereference)
  | Some mw =>
      match Chain.Then DefaultServeMux mw (Some (not_found_handler r)) with
      | Go.Return (Some h) => ([EvNotFound], serve_handler h)
      | Go.Return None => ([], Go.Panic Go.NilDereference)
      | Go.Panic v => ([], Go.Panic v)
      | Go.Blocked => ([], Go.Blocked)
      end
  end.
Proof.
  unfold Router.serve_404, not_found_handler.
  destruct (middleware r) as [mw|]; [|done].
  destruct (NotFound Hdl node r) as [nf|];
    (destruct (Chain.Then _ _ _) as [[h|]|v|]; cbn; try done;
     by destruct (serve_handler h)).
Qed.

Lemma probe_cons (req : Request) (m : string) (rest : list string) (e : event) :
  probe req rest e -> probe req (m :: rest) e.
Proof.
  destruct e; cbn; try done. intros (? & ? & ?).
  split; [done|]. split; [done|]. apply elem_of_cons. by right.
Qed.

(** The 405 loop cannot go past [method]: the method has a nil tree, or
    [getValue] on its tree does not return. *)
Definition stops (r : router) (req : Request) (method : string) : Prop :=
  forall root, tree_of r method = Some root ->
    forall x, getValue root (Path req) <> Go.Return x.

(** What the 405 block can do. It answers when it finds a method, other
    than the request's, with a handler for the path, and then ends as the
    405 answer does; it returns without an answer when no such method has
    one; or the loop is stopped at a method. *)
Inductive scan (r : router) (req : Request) (order : list string)
  : traced bool -> Prop :=
| scan_found pre m root h ps tsr :
    Forall (probe req order) pre ->
    m ∈ order -> m <> Method req -> tree_of r m = Some root ->
    getValue root (Path req) = Go.Return (Some h, ps, tsr) ->
    scan r req order
      (pre ++ [EvMethodNotAllowed],
       do _ <~ method_not_allowed r; Go.Return true)
| scan_none t :
    Forall (probe req order) t ->
    (forall m, m ∈ order -> m <> Method req ->
       exists root ps tsr, tree_of r m = Some root /\
         getValue root (Path req) = Go.Return (None, ps, tsr)) ->
    scan r req order (t, Go.Return false)
| scan_stop t res m :
    Forall (probe req order) t -> (forall b, res <> Go.Return b) ->
    m ∈ order -> m <> Method req -> stops r req m ->
    scan r req order (t, res).

Lemma probe_mono (req : Request) (m : string) (rest : list string)
    (t : list event) :
  Forall (probe req rest) t -> Forall (probe req (m :: rest)) t.
Proof. intros Ht. eapply Forall_impl; [exact Ht|]. intros e. apply probe_cons. Qed.

(** The loop skips the request's own method. *)
Lemma scan_skip (r : router) (req : Request) (rest : list string)
    (x : traced bool) :
  scan r req rest x -> scan r req (Method req :: rest) x.
Proof.
  intros [pre m root h ps tsr Hpre Hm Hne Hroot Hget | t Ht Hall
         | t res m Ht Hres Hm Hne Hstop].
  - eapply scan_found; [by apply probe_mono | | done..].
    apply elem_of_cons. by right.
  - apply scan_none; [by apply probe_mono|].
    intros m [->|Hm]%elem_of_cons Hne; [done | by apply Hall].
  - apply (scan_stop _ _ _ _ _ m); [by apply probe_mono | done | | done..].
    apply elem_of_cons. by right.
Qed.

(** The loop goes on after a method without a handler for the path. *)
Lemma scan_step (r : router) (req : Request) (method : string)
    (rest : list string) (root : node) (ps : option (gmap string string))
    (tsr : bool) (x : traced bool) :
  method <> Method req -> tree_of r method = Some root ->
  getValue root (Path req) = Go.Return (None, ps, tsr) ->
  scan r req rest x ->
  scan r req (method :: rest) (EvGetValue method (Path req) :: x.1, x.2).
Proof.
  intros Hmethod Hr Hg.
  assert (Hprobe : probe req (method :: rest) (EvGetValue method (Path req))).
  { cbn. split; [done|]. split; [done|]. apply elem_of_cons. by left. }
  intros [pre m root' h ps' tsr' Hpre Hm Hne Hroot Hget | t Ht Hall
         | t res m Ht Hres Hm Hne Hstop]; cbn [fst snd].
  - rewrite app_comm_cons.
    eapply scan_found; [constructor; [done | by apply probe_mono] | | done..].
    apply elem_of_cons. by right.
  - apply scan_none; [constructor; [done | by apply probe_mono]|].
    intros m [->|Hm]%elem_of_cons Hne; [by exists root, ps, tsr | by apply Hall].
  - apply (scan_stop _ _ _ _ _ m);
      [constructor; [done | by apply probe_mono] | done | | done..].
    apply elem_of_cons. by right.
Qed.

Lemma serve_405_spec (r : router) (req : Request) (order : list string) :
  scan r req order (serve_405 r req order).
Proof.
  induction order as [|method rest IH]; cbn [Router.serve_405].
  { apply scan_none; [constructor|]. intros m Hm. by apply elem_of_nil in Hm. }
  destruct (String.eqb_spec method (Method req)) as [->|Hne].
  { by apply scan_skip. }
  assert (Hhere : method ∈ method :: rest) by (apply elem_of_cons; by left).
  destruct (tree_of r method) as [root|] eqn:Hroot.
  2:{ apply (scan_stop _ _ _ _ _ method); [constructor | done..|].
      intros root. congruence. }
  assert (Hprobe : probe req (method :: rest) (EvGetValue method (Path req)))
    by done.
  unfold call_getValue. cbn.
  destruct (getValue root (Path req)) as [[[[h|] ps] tsr]|v|] eqn:Hget; cbn.
  - fold (method_not_allowed r).
    assert (Hfound : scan r req (method :: rest)
                       ([EvGetValue method (Path req)] ++ [EvMethodNotAllowed],
                        do _ <~ method_not_allowed r; Go.Return true))
      by (eapply scan_found; [by repeat constructor | done..]).
    by destruct (method_not_allowed r).
  - pose proof (scan_step r req method rest root ps tsr _ Hne Hroot Hget IH)
      as Hstep.
    by destruct (Router.serve_405 _ _ _ _ r req rest).
  - apply (scan_stop _ _ _ _ _ method); [by repeat constructor | done..|].
    intros root' Hroot' x. congruence.
  - apply (scan_stop _ _ _ _ _ method); [by repeat constructor | done..|].
    intros root' Hroot' x. congruence.
Qed.

(** The 405 and 404 blocks, reached when the first block did not answer. *)
Definition fall_through (r : router) (req : Request) (order : list string)
  : traced unit :=
  run answered <~
    (if HandleMethodNotAllowed Hdl node r then serve_405 r req order
     else ret false);
  if answered then ret tt else serve_404 r.

(** What the 405 and 404 blocks can do: the 405 answer, which ends as
    [r.MethodNotAllowed] or [http.Error] does; the 404 answer, which ends as
    the handler that the middleware chain returned does; a stop of the 405
    loop at a method; or a stop of the 404 block before the answer, when the
    chain gives no handler to call. *)
Inductive fall (r : router) (req : Request) (order : list string)
  : traced unit -> Prop :=
| fall_405 pre m root h ps tsr :
    HandleMethodNotAllowed Hdl node r = true ->
    Forall (probe req order) pre ->
    m ∈ order -> m <> Method req -> tree_of r m = Some root ->
    getValue root (Path req) = Go.Return (Some h, ps, tsr) ->
    fall r req order (pre ++ [EvMethodNotAllowed], method_not_allowed r)
| fall_404 pre mw h :
    Forall (probe req order) pre ->
    (HandleMethodNotAllowed Hdl node r = false -> pre = []) ->
    (HandleMethodNotAllowed Hdl node r = true ->
     forall m, m ∈ order -> m <> Method req ->
       exists root ps tsr, tree_of r m = Some root /\
         getValue root (Path req) = Go.Return (None, ps, tsr)) ->
    middleware r = Some mw ->
    Chain.Then DefaultServeMux mw (Some (not_found_handler r))
    = Go.Return (Some h) ->
    fall r req order (pre ++ [EvNotFound], serve_handler h)
| fall_405_stop pre res m :
    HandleMethodNotAllowed Hdl node r = true ->
    Forall (probe req order) pre -> res <> Go.Return tt ->
    m ∈ order -> m <> Method req -> stops r req m ->
    fall r req order (pre, res)
| fall_404_stop pre :
    Forall (probe req order) pre ->
    (HandleMethodNotAllowed Hdl node r = false -> pre = []) ->
    (HandleMethodNotAllowed Hdl node r = true ->
     forall m, m ∈ order -> m <> Method req ->
       exists root ps tsr, tree_of r m = Some root /\
         getValue root (Path req) = Go.Return (None, ps, tsr)) ->
    (serve_404 r).1 = [] -> (serve_404 r).2 <> Go.Return tt ->
    (forall mw h, middleware r = Some mw ->
       Chain.Then DefaultServeMux mw (Some (not_found_handler r))
       <> Go.Return (Some h)) ->
    fall r req order (pre, (serve_404 r).2).

Lemma fall_through_spec (r : router) (req : Request) (order : list string) :
  fall r req order (fall_through r req order).
Proof.
  unfold fall_through.
  assert (H404 : forall pre,
            Forall (probe req order) pre ->
            (HandleMethodNotAllowed Hdl node r = false -> pre = []) ->
            (HandleMethodNotAllowed Hdl node r = true ->
             forall m, m ∈ order -> m <> Method req ->
               exists root ps tsr, tree_of r m = Some root /\
                 getValue root (Path req) = Go.Return (None, ps, tsr)) ->
            fall r req order (pre ++ (serve_404 r).1, (serve_404 r).2)).
  { intros pre Hpre Hoff Hon.
    assert (Hstop : (serve_404 r).1 = [] -> (serve_404 r).2 <> Go.Return tt ->
                    (forall mw h, middleware r = Some mw ->
                       Chain.Then DefaultServeMux mw (Some (not_found_handler r))
                       <> Go.Return (Some h)) ->
                    fall r req order (pre ++ (serve_404 r).1, (serve_404 r).2)).
    { intros Hnil Hres Hno. rewrite Hnil, app_nil_r. by apply fall_404_stop. }
    revert Hstop. rewrite serve_404_cases.
    destruct (middleware r) as [mw|] eqn:Hmw;
      [|intros Hstop; by apply Hstop].
    destruct (Chain.Then _ _ _) as [[h|]|v|] eqn:Hthen; cbn; intros Hstop;
      [by eapply fall_404 | apply Hstop; try done; congruence..]. }
  destruct (HandleMethodNotAllowed Hdl node r) eqn:Hmna.
  - destruct (serve_405_spec r req order)
      as [pre m root h ps tsr Hpre Hm Hne Hroot Hget | t Ht Hall
         | t res m Ht Hres Hm Hne Hstop].
    + assert (Hf : fall r req order
                     (pre ++ [EvMethodNotAllowed], method_not_allowed r))
        by (by eapply fall_405).
      destruct (method_not_allowed r) as [[]|v|]; cbn;
        by rewrite ?app_nil_r.
    + cbn. specialize (H404 t Ht). destruct (serve_404 r) as [t4 r4].
      apply H404; [congruence | by intros _].
    + destruct res as [b|v|]; [by destruct (Hres b)|..]; cbn;
        by apply (fall_405_stop _ _ _ _ _ m).
  - cbn. specialize (H404 [] (Forall_nil_2 _)).
    destruct (serve_404 r) as [t4 r4]. apply H404; [done | congruence].
Qed.

Lemma serve_body_cases (r : router) (req : Request) (order : list string) :
  serve_body r req order =
  match serve_method r req with
  | (t, Go.Return true) => (t, Go.Return tt)
  | (t, Go.Return false) =>
      (t ++ (fall_through r req order).1, (fall_through r req order).2)
  | (t, Go.Panic v) => (t, Go.Panic v)
  | (t, Go.Blocked) => (t, Go.Blocked)
  end.
Proof.
  unfold Router.serve_body. fold (fall_through r req order).
  destruct (Router.serve_method _ _ _ _ _ _ _ r req) as [t [[]|v|]]; cbn;
    rewrite ?app_nil_r; try done.
  by destruct (fall_through r req order).
Qed.

Lemma may_redirect_true (req : Request) :
  may_redirect req = true ->
  Method req <> "CONNECT"%string /\ Path req <> "/"%string.
Proof.
  unfold may_redirect. intros [H1 H2]%andb_true_iff.
  apply negb_true_iff in H1, H2. by apply String.eqb_neq in H1, H2.
Qed.

Lemma redirect_code_cases (req : Request) :
  redirect_code req = if (Method req =? "GET")%string then 301 else 307.
Proof. unfold redirect_code. by destruct (Method req =? "GET")%string. Qed.



Lemma probe_elem (req : Request) (order : list string) (t : list event) (e : event) :
  Forall (probe req order) t -> e ∈ t -> probe req order e.
Proof. intros Hall He. by apply (proj1 (Forall_forall _ _) Hall). Qed.

(** The trace of a matched request whose handler, after the router's
    middleware, is [next]: the handler is called, and its panic goes to the
    panic handler when one is set. *)
Definition answer_with (r : router) (req : Request) (next : Chain.handler Hdl)
    (ps : option (gmap string string)) : traced unit :=
  let g := EvGetValue (Method req) (Path req) in
  match run_handler next ps with
  | Go.Return _ => ([g; EvHandler], Go.Return tt)
  | Go.Panic v => recv r [g; EvHandler] v
  | Go.Blocked => ([g; EvHandler], Go.Blocked)
  end.

(** The trace of a matched request, given how chaining the router's
    middleware around the route's handler ends: the handler it returns is
    called; when it panics, which a nil or a panicking middleware makes it
    do, the handler is never called. *)
Definition dispatch (r : router) (req : Request)
    (ps : option (gmap string string))
    (chain : Go.result (Chain.handler Hdl)) : traced unit :=
  let g := EvGetValue (Method req) (Path req) in
  match chain with
  | Go.Return next => answer_with r req next ps
  | Go.Panic v => recv r [g] v
  | Go.Blocked => ([g], Go.Blocked)
  end.

(** The case analysis of the first block, [ServeHTTP] unfolded. *)
Ltac first_block r req :=
  rewrite ?ServeHTTP_recv; rewrite serve_body_cases, serve_method_cases;
  let root := fresh "root" in
  let Hroot := fresh "Hroot" in
  let Hget := fresh "Hget" in
  destruct (tree_of r (Method req)) as [root|] eqn:Hroot;
  [ let h := fresh "h" in
    let ps := fresh "ps" in
    let tsr := fresh "tsr" in
    destruct (getValue root (Path req)) as [[[[h|] ps] tsr]|?|] eqn:Hget;
    [ let Hmw := fresh "Hmw" in
      let Hchain := fresh "Hchain" in
      let Hrun := fresh "Hrun" in
      destruct (middleware r) as [?mw|] eqn:Hmw;
      [ destruct (Chain.nest _ (Some h)) as [?next|?|] eqn:Hchain;
        [ destruct (run_handler _ ps) eqn:Hrun | | ]
      | ]
    | let Hmay := fresh "Hmay" in
      let Htsr := fresh "Htsr" in
      let Hrfp := fresh "Hrfp" in
      let Hfix := fresh "Hfix" in
      destruct (may_redirect req) eqn:Hmay;
      [ destruct (tsr && RedirectTrailingSlash Hdl node r) eqn:Htsr;
        [ | destruct (RedirectFixedPath Hdl node r) eqn:Hrfp;
            [ destruct (findCaseInsensitivePath root (CleanPath (Path req))
                          (RedirectTrailingSlash Hdl node r))
                as [?fixedPath [|]] eqn:Hfix
            | ] ]
      | ]
    | | ]
  | ];
  cbn [fst snd].

(** The body of [ServeHTTP] for a request that matches a route. *)
Lemma serve_body_matched (r : router) (req : Request) (order : list string)
    (root : node) (h : Hdl) (ps : option (gmap string string)) (tsr : bool)
    (mw : list (Chain.mwfunc Hdl)) :
  tree_of r (Method req) = Some root ->
  getValue root (Path req) = Go.Return (Some h, ps, tsr) ->
  middleware r = Some mw ->
  serve_body r req order =
  let g := EvGetValue (Method req) (Path req) in
  match Chain.nest mw (Some h) with
  | Go.Return next =>
      match run_handler next ps with
      | Go.Return _ => ([g; EvHandler], Go.Return tt)
      | Go.Panic v => ([g; EvHandler], Go.Panic v)
      | Go.Blocked => ([g; EvHandler], Go.Blocked)
      end
  | Go.Panic v => ([g], Go.Panic v)
  | Go.Blocked => ([g], Go.Blocked)
  end.
Proof.
  intros Hroot Hget Hmw.
  rewrite serve_body_cases, serve_method_cases, Hroot, Hget, Hmw. cbn zeta.
  destruct (Chain.nest mw (Some h)) as [next|v|]; [|done..].
  by destruct (run_handler _ ps).
Qed.

Lemma ServeHTTP_dispatch (r : router) (req : Request) (order : list string)
    (root : node) (h : Hdl) (ps : option (gmap string string)) (tsr : bool)
    (mw : list (Chain.mwfunc Hdl)) :
  tree_of r (Method req) = Some root ->
  getValue root (Path req) = Go.Return (Some h, ps, tsr) ->
  middleware r = Some mw ->
  ServeHTTP r req order = dispatch r req ps (Chain.nest mw (Some h)).
Proof.
  intros Hroot Hget Hmw. rewrite ServeHTTP_recv.
  rewrite (serve_body_matched r req order root h ps tsr mw Hroot Hget Hmw).
  unfold dispatch, answer_with. cbn zeta.
  destruct (Chain.nest mw (Some h)) as [next|v|]; [|done..].
  by destruct (run_handler _ ps).
Qed.


(** X18. The middleware given to [Use] after the router was built sit
    inside the middleware it had: a matched request chains the new ones
    around the route's handler first and the old ones around what they
    return. For middleware that all return, the handler called is the old
    chain's composition applied to the new chain's. *)
Theorem Use_wraps_inside (r : router) (req : Request) (order : list string)
    (mws : list (Chain.mwfunc Hdl)) (root : node) (h : Hdl)
    (ps : option (gmap string string)) (tsr : bool)
    (mw : list (Chain.mwfunc Hdl)) :
  middleware r = Some mw ->
  tree_of r (Method req) = Some root ->
  getValue root (Path req) = Go.Return (Some h, ps, tsr) ->
  (Registration.Use Hdl node r mws).2 = Go.Return tt /\
  ServeHTTP (Registration.Use Hdl node r mws).1 req order
  = dispatch r req ps
      (do inner <~ Chain.nest mws (Some h); Chain.nest mw inner) /\
  (forall fs gs, mw = Chain.returning <$> fs -> mws = Chain.returning <$> gs ->
     ServeHTTP (Registration.Use Hdl node r mws).1 req order
     = answer_with r req
         (Chain.nest_pure fs (Chain.nest_pure gs (Some h))) ps).
Proof.
  intros Hmw Hroot Hget. unfold Registration.Use. rewrite Hmw.
  split; [done|]. cbn [fst].
  rewrite (ServeHTTP_dispatch _ req order root h ps tsr (Chain.Use mw mws));
    [|done..].
  unfold Chain.Use. rewrite ChainLaws.nest_app.
  split; [done|].
  intros fs gs -> ->. rewrite Chain.nest_all_funcs. cbn [Go.bind].
  rewrite Chain.nest_all_funcs. done.
Qed.

(** The calls of [ServeHTTP] are those of its body, and after them the
    panic handler at most. *)
Lemma ServeHTTP_events (r : router) (req : Request) (order : list string)
    (e : event) :
  e ∈ (ServeHTTP r req order).1 ->
  e ∈ (serve_body r req order).1 \/ exists v, e = EvPanicHandler v.
Proof.
  rewrite ServeHTTP_recv.
  destruct (Router.serve_body _ _ _ _ _ _ _ _ _ r req order) as [t [[]|v|]];
    cbn; [by left | | by left].
  unfold recv. destruct (PanicHandler Hdl node r) as [recover|]; cbn;
    [|by left].
  intros [He|He]%elem_of_app; [by left|].
  apply list_elem_of_singleton in He. right. by exists v.
Qed.

(** The calls of the 405 and 404 blocks. *)
Lemma fall_events (r : router) (req : Request) (order : list string)
    (x : traced unit) (e : event) :
  fall r req order x -> e ∈ x.1 ->
  probe req order e \/ e = EvMethodNotAllowed \/ e = EvNotFound.
Proof.
  intros [pre m root h ps tsr Hmna Hpre Hm Hne Hroot Hget
         | pre mw h Hpre Hoff Hon Hmw Hthen
         | pre res m Hmna Hpre Hres Hm Hne Hstop
         | pre Hpre Hoff Hon Hnil Hres Hno]; cbn [fst].
  - intros [He|He]%elem_of_app; [left; by eapply probe_elem|].
    apply list_elem_of_singleton in He. auto.
  - intros [He|He]%elem_of_app; [left; by eapply probe_elem|].
    apply list_elem_of_singleton in He. auto.
  - intros He. left. by eapply probe_elem.
  - intros He. left. by eapply probe_elem.
Qed.

(** The 405 and 404 blocks where the first block fell through. *)
Ltac fall_cases r req order :=
  destruct (fall_through_spec r req order)
    as [?pre ?m ?root ?h ?ps ?tsr ?Hmna ?Hpre ?Hm ?Hne ?Hroot ?Hget
       | ?pre ?mw ?h ?Hpre ?Hoff ?Hon ?Hmw ?Hthen
       | ?pre ?res ?m ?Hmna ?Hpre ?Hres ?Hm ?Hne ?Hstop
       | ?pre ?Hpre ?Hoff ?Hon ?Hnil ?Hres ?Hno];
  cbn [fst snd].

(** Which part of a trace an event is in. *)
Ltac elems :=
  repeat match goal with
    | H : _ ∈ _ ++ _ |- _ => apply elem_of_app in H as [H|H]
    | H : _ ∈ _ :: _ |- _ => apply elem_of_cons in H as [H|H]
    | H : _ ∈ [] |- _ => by apply elem_of_nil in H
    | H : @eq event _ _ |- _ => discriminate H
    | H : ?e ∈ ?pre, Hp : Forall (probe _ _) ?pre |- _ =>
        by apply (probe_elem _ _ _ _ Hp) in H
    end.

Ltac last_event :=
  cbn [app];
  first [ reflexivity | apply last_snoc
        | rewrite !app_comm_cons; apply last_snoc
        | rewrite !app_comm_cons, app_assoc; apply last_snoc ].

(** X19. Every redirect [ServeHTTP] sends follows the rules of the first
    block: never for CONNECT nor for the path [/], only when the method's
    tree has no handler for the path, with status 301 for GET and 307 for
    any other method, and either to the path with its trailing slash toggled
    (when the tree recommends it and [RedirectTrailingSlash] is set) or to
    the path the case-insensitive lookup found for the cleaned path (when
    [RedirectFixedPath] is set). The redirect ends the request. *)
Theorem redirect_rules (r : router) (req : Request) (order : list string)
    (p : string) (code : nat) :
  EvRedirect p code ∈ (ServeHTTP r req order).1 ->
  Method req <> "CONNECT"%string /\ Path req <> "/"%string /\
  code = (if (Method req =? "GET")%string then 301 else 307) /\
  exists root ps tsr,
    tree_of r (Method req) = Some root /\
    getValue root (Path req) = Go.Return (None, ps, tsr) /\
    ((tsr = true /\ RedirectTrailingSlash Hdl node r = true /\
      p = toggle_trailing_slash (Path req) /\
      ServeHTTP r req order
      = ([EvGetValue (Method req) (Path req); EvRedirect p code], Go.Return tt))
     \/
     ((tsr && RedirectTrailingSlash Hdl node r) = false /\
      RedirectFixedPath Hdl node r = true /\
      findCaseInsensitivePath root (CleanPath (Path req))
        (RedirectTrailingSlash Hdl node r) = (p, true) /\
      ServeHTTP r req order
      = ([EvGetValue (Method req) (Path req); EvCleanPath (Path req);
          EvFindCaseInsensitivePath (Method req) (CleanPath (Path req))
            (RedirectTrailingSlash Hdl node r);
          EvRedirect p code], Go.Return tt))).
Proof.
  intros Hin. apply ServeHTTP_events in Hin as [Hin|[v Hv]]; [|discriminate Hv].
  revert Hin. first_block r req.
  all: rewrite ?redirect_code_cases.
  all: try (pose proof (fall_events r req order _ (EvRedirect p code)
                          (fall_through_spec r req order)) as Hfall;
            destruct (fall_through r req order) as [ft fr]; cbn [fst snd] in *;
            intros Hin; exfalso;
            apply elem_of_app in Hin as [Hin|Hin];
            [ elems | by destruct (Hfall Hin) as [?|[?|?]] ]).
  all: intros Hin.
  all: try (exfalso; elems; fail).
  all: destruct (may_redirect_true req Hmay) as [Hconnect Hslash].
  all: repeat (apply elem_of_cons in Hin as [Hin|Hin]; [discriminate Hin|]).
  all: apply elem_of_cons in Hin as [Hin|Hin]; [|by apply elem_of_nil in Hin].
  all: injection Hin as -> ->.
  all: split; [done|]; split; [done|]; split; [done|].
  all: exists root, ps, tsr; split; [done|]; split; [done|].
  all: first [ left; apply andb_true_iff in Htsr as [-> ->]; done
             | right; done ].
Qed.


Lemma unmatched_no_tree (r : router) (req : Request) :
  tree_of r (Method req) = None -> unmatched r req (Method req).
Proof. intros H root Hroot. congruence. Qed.

Lemma unmatched_nil (r : router) (req : Request) (root : node)
    (ps : option (gmap string string)) (tsr : bool) :
  tree_of r (Method req) = Some root ->
  getValue root (Path req) = Go.Return (None, ps, tsr) ->
  unmatched r req (Method req).
Proof. intros H Hget root' Hroot. exists ps, tsr. congruence. Qed.

(** X21. [ServeHTTP] answers 405 only when [HandleMethodNotAllowed] is set,
    the request's own method has no handler for the path, and some other
    method that [range] yields has one. The 405 answer is the last call of
    the body, which ends as the answer does: as [r.MethodNotAllowed] when
    it is set, also when that panics, and with a return when it is not. *)
Theorem method_not_allowed_rules (r : router) (req : Request)
    (order : list string) :
  EvMethodNotAllowed ∈ (ServeHTTP r req order).1 ->
  HandleMethodNotAllowed Hdl node r = true /\
  unmatched r req (Method req) /\
  (exists m root h ps tsr,
     m ∈ order /\ m <> Method req /\ tree_of r m = Some root /\
     getValue root (Path req) = Go.Return (Some h, ps, tsr)) /\
  (serve_body r req order).2 = method_not_allowed r /\
  last (serve_body r req order).1 = Some EvMethodNotAllowed /\
  (MethodNotAllowed Hdl node r = None ->
   (ServeHTTP r req order).2 = Go.Return tt /\
   last (ServeHTTP r req order).1 = Some EvMethodNotAllowed).
Proof.
  intros Hin. apply ServeHTTP_events in Hin as [Hin|[v Hv]]; [|discriminate Hv].
  revert Hin. first_block r req.
  all: try (fall_cases r req order).
  all: intros Hin; try (exfalso; elems; fail).
  all: split; [done|]; split;
         [ first [ by apply unmatched_no_tree | by eapply unmatched_nil ] |];
       split; [by eauto 10|]; split; [done|]; split; [last_event|].
  all: unfold method_not_allowed; intros ->; cbn; split; [done | last_event].
Qed.

(** X22. [ServeHTTP] answers 404 only when nothing matched: the request's
    own method has no handler for the path, and, with
    [HandleMethodNotAllowed] set, no other method that [range] yields has
    one either. The answer is given by the handler that chaining the
    router's middleware around the not-found handler returned, which is not
    nil; it is the last call of the body, which ends as that handler
    does. *)
Theorem not_found_rules (r : router) (req : Request) (order : list string) :
  EvNotFound ∈ (ServeHTTP r req order).1 ->
  unmatched r req (Method req) /\
  (HandleMethodNotAllowed Hdl node r = true ->
   forall m, m ∈ order -> m <> Method req ->
     exists root ps tsr, tree_of r m = Some root /\
       getValue root (Path req) = Go.Return (None, ps, tsr)) /\
  (exists mw h,
     middleware r = Some mw /\
     Chain.Then DefaultServeMux mw (Some (not_found_handler r))
     = Go.Return (Some h) /\
     (serve_body r req order).2 = serve_handler h) /\
  last (serve_body r req order).1 = Some EvNotFound.
Proof.
  intros Hin. apply ServeHTTP_events in Hin as [Hin|[v Hv]]; [|discriminate Hv].
  revert Hin. first_block r req.
  all: try (fall_cases r req order).
  all: intros Hin; try (exfalso; elems; fail).
  all: split;
         [ first [ by apply unmatched_no_tree | by eapply unmatched_nil ] |];
       split; [done|]; split; [by eauto 10|]; last_event.
Qed.

(** X23. The redirects are sent whenever their conditions hold: for a
    request other than CONNECT, on a path other than [/], for which the
    method's tree has no handler, a recommended trailing-slash change is
    redirected to when [RedirectTrailingSlash] is set, and otherwise, with
    [RedirectFixedPath] set, a path found by the case-insensitive lookup of
    the cleaned path is. Nothing else is tried after the redirect. *)
Theorem redirects_sent (r : router) (req : Request) (order : list string)
    (root : node) (ps : option (gmap string string)) (tsr : bool) :
  tree_of r (Method req) = Some root ->
  getValue root (Path req) = Go.Return (None, ps, tsr) ->
  Method req <> "CONNECT"%string -> Path req <> "/"%string ->
  (tsr = true -> RedirectTrailingSlash Hdl node r = true ->
   ServeHTTP r req order
   = ([EvGetValue (Method req) (Path req);
       EvRedirect (toggle_trailing_slash (Path req)) (redirect_code req)],
      Go.Return tt)) /\
  (forall p, (tsr && RedirectTrailingSlash Hdl node r) = false ->
   RedirectFixedPath Hdl node r = true ->
   findCaseInsensitivePath root (CleanPath (Path req))
     (RedirectTrailingSlash Hdl node r) = (p, true) ->
   ServeHTTP r req order
   = ([EvGetValue (Method req) (Path req); EvCleanPath (Path req);
       EvFindCaseInsensitivePath (Method req) (CleanPath (Path req))
         (RedirectTrailingSlash Hdl node r);
       EvRedirect p (redirect_code req)], Go.Return tt)).
Proof.
  intros Hroot Hget Hconnect Hslash.
  assert (Hmay : may_redirect req = true).
  { unfold may_redirect. apply andb_true_iff.
    split; apply negb_true_iff; by apply String.eqb_neq. }
  rewrite ServeHTTP_recv.
  rewrite serve_body_cases, serve_method_cases, Hroot, Hget, Hmay. cbn zeta.
  split.
  - intros -> ->. done.
  - intros p -> -> ->. done.
Qed.

(** X24. A request the first block does not answer goes to the 405 block
    and the 404 block. When [getValue] returns for every other method that
    [range] yields: if [HandleMethodNotAllowed] is set and one of these
    methods has a handler for the path, the 405 answer is the last call of
    the body, which ends as that answer does; if not, the router's
    middleware are chained around the not-found handler, and when that
    returns a handler, the 404 answer by it is the last call of the body,
    which ends as that handler does, while a nil handler returned by the
    chain makes the body panic on the nil dereference without any 404
    answer. *)
Theorem unanswered_gets_405_or_404 (r : router) (req : Request)
    (order : list string) :
  (serve_method r req).2 = Go.Return false ->
  (forall m, m ∈ order -> m <> Method req ->
     exists root res, tree_of r m = Some root /\
       getValue root (Path req) = Go.Return res) ->
  let allowed :=
    HandleMethodNotAllowed Hdl node r = true /\
    exists m root h ps tsr,
      m ∈ order /\ m <> Method req /\ tree_of r m = Some root /\
      getValue root (Path req) = Go.Return (Some h, ps, tsr) in
  (allowed ->
   last (serve_body r req order).1 = Some EvMethodNotAllowed /\
   (serve_body r req order).2 = method_not_allowed r) /\
  (~ allowed -> forall mw h,
   middleware r = Some mw ->
   Chain.Then DefaultServeMux mw (Some (not_found_handler r))
   = Go.Return (Some h) ->
   last (serve_body r req order).1 = Some EvNotFound /\
   (serve_body r req order).2 = serve_handler h) /\
  (~ allowed -> forall mw,
   middleware r = Some mw ->
   Chain.Then DefaultServeMux mw (Some (not_found_handler r))
   = Go.Return None ->
   (serve_body r req order).2 = Go.Panic Go.NilDereference /\
   (EvNotFound ∉ (serve_body r req order).1) /\
   (EvMethodNotAllowed ∉ (serve_body r req order).1)).
Proof.
  intros Hfirst Hok allowed.
  assert (Hgo : forall m, m ∈ order -> m <> Method req -> ~ stops r req m).
  { intros m Hm Hne Hstop. destruct (Hok m Hm Hne) as (root & res & Hroot & Hget).
    by apply (Hstop root Hroot res). }
  assert (Hquiet : forall e, e ∈ (serve_method r req).1 -> answers e = false).
  { revert Hfirst. rewrite serve_method_cases.
    destruct (tree_of r (Method req)) as [root|]; cbn zeta;
      [|intros _ e He; by apply elem_of_nil in He].
    destruct (getValue root (Path req)) as [[[[h|] ps] tsr]|v|];
      [| |by cbn..].
    - destruct (middleware r) as [mw|]; [|by cbn].
      destruct (Chain.nest mw (Some h)) as [next|v|]; [|by cbn..].
      destruct (run_handler next ps); by cbn.
    - destruct (may_redirect req); [|cbn; intros _ e He; elems; by subst].
      destruct (tsr && RedirectTrailingSlash Hdl node r); [by cbn|].
      destruct (RedirectFixedPath Hdl node r);
        [|cbn; intros _ e He; elems; by subst].
      cbn zeta. destruct (findCaseInsensitivePath _ _ _) as [fixedPath [|]];
        [by cbn|]. cbn. intros _ e He. elems; by subst. }
  rewrite serve_body_cases.
  destruct (Router.serve_method _ _ _ _ _ _ _ r req) as [t0 r0].
  cbn in Hfirst, Hquiet. subst r0.
  fall_cases r req order.
  - (* the 405 answer *)
    split; [intros _; split; [rewrite app_assoc; apply last_snoc | done]|].
    assert (Hallowed : allowed) by (split; [done | by eauto 10]).
    split; intros Hnot; by destruct (Hnot Hallowed).
  - (* the 404 answer *)
    assert (Hnot : ~ allowed).
    { intros [Hmna' (m & root & h' & ps & tsr & Hm & Hne & Hroot & Hget)].
      destruct (Hon Hmna' m Hm Hne) as (root' & ps' & tsr' & Hroot' & Hget').
      congruence. }
    split; [intros Hallowed; by destruct (Hnot Hallowed)|].
    split.
    + intros _ mw' h' Hmw' Hthen'.
      assert (h' = h) as -> by congruence.
      split; [rewrite app_assoc; apply last_snoc | done].
    + intros _ mw' Hmw' Hthen'. congruence.
  - (* the loop is stopped: excluded *)
    by destruct (Hgo m Hm Hne).
  - (* no handler to call *)
    assert (Hnot : ~ allowed).
    { intros [Hmna' (m & root & h' & ps & tsr & Hm & Hne & Hroot & Hget)].
      destruct (Hon Hmna' m Hm Hne) as (root' & ps' & tsr' & Hroot' & Hget').
      congruence. }
    split; [intros Hallowed; by destruct (Hnot Hallowed)|].
    split.
    + intros _ mw' h' Hmw' Hthen'. by destruct (Hno mw' h' Hmw').
    + intros _ mw' Hmw' Hthen'.
      assert (H404 : (serve_404 r).2 = Go.Panic Go.NilDereference).
      { rewrite serve_404_cases, Hmw', Hthen'. done. }
      split; [done|].
      split; intros [He|He]%elem_of_app.
      * by apply Hquiet in He.
      * by apply (probe_elem _ _ _ _ Hpre) in He.
      * by apply Hquiet in He.
      * by apply (probe_elem _ _ _ _ Hpre) in He.
Qed.

End Dispatch.

Arguments unmatched {Hdl node} getValue r req method.
Arguments method_not_allowed {Hdl node} serve_handler r.
Arguments not_found_handler {Hdl node} http_NotFound r.
Arguments recv {Hdl node} r t v.
Arguments answer_with {Hdl node} run_handler r req next ps.
Arguments dispatch {Hdl node} run_handler r req ps chain.

(** The router with the README's blog route, its handlers named by strings:
    the case-insensitive lookup finds nothing, and handlers return. *)
Definition no_fix (root : HttpRouter.node string) (p : string) (fix_slash : bool)
  : string * bool := (p, false).

Definition handled (next : Chain.handler string)
    (ps : option (gmap string string)) : Go.result unit := Go.Return tt.

Definition served (h : string) : Go.result unit := Go.Return tt.

Definition serve (r : Router.Router string (HttpRouter.node string))
    (req : Request) (order : list string) : traced unit :=
  Router.ServeHTTP "DefaultServeMux"%string HttpRouter.getValue no_fix
    Clean.clean "NotFound"%string handled served r req order.

Definition body (r : Router.Router string (HttpRouter.node string))
    (req : Request) (order : list string) : traced unit :=
  Router.serve_body string "DefaultServeMux"%string (HttpRouter.node string)
    HttpRouter.getValue no_fix Clean.clean "NotFound"%string handled served
    r req order.

Definition blog_root : HttpRouter.node string :=
  (HttpRouter.addRoute Tree.empty "/blog/:category/:post" (Some "post"%string)).1.

Definition blog_params : option (gmap string string) :=
  Some (HttpRouter.params_map [(Tree.bytes "category", Tree.bytes "go");
                               (Tree.bytes "post", Tree.bytes "routers")]).

Definition GET_post : Request := {| Method := "GET"; Path := "/blog/go/routers" |}.
Definition GET_post_slash : Request :=
  {| Method := "GET"; Path := "/blog/go/routers/" |}.
Definition POST_post : Request := {| Method := "POST"; Path := "/blog/go/routers" |}.
Definition GET_other : Request := {| Method := "GET"; Path := "/about" |}.


Lemma Use_wraps_inside_witness :
  (Registration.Use string (HttpRouter.node string) HttpRouter.blog_router
     [ChainExamples.wrap "log"; ChainExamples.wrap "auth"]).2 = Go.Return tt /\
  serve
    (Registration.Use string (HttpRouter.node string) HttpRouter.blog_router
       [ChainExamples.wrap "log"; ChainExamples.wrap "auth"]).1
    GET_post ["GET"%string]
  = answer_with handled HttpRouter.blog_router GET_post
      (Some "log(auth(post))"%string) blog_params.
Proof.
  destruct (Use_wraps_inside string "DefaultServeMux"%string
              (HttpRouter.node string) HttpRouter.getValue no_fix Clean.clean
              "NotFound"%string handled served HttpRouter.blog_router GET_post
              ["GET"%string]
              [ChainExamples.wrap "log"; ChainExamples.wrap "auth"]
              blog_root "post"%string blog_params false []
              eq_refl eq_refl eq_refl) as (Huse & Hserve & _).
  split; [exact Huse | exact Hserve].
Defined.

Lemma redirect_rules_witness :
  EvRedirect "/blog/go/routers" 301
    ∈ (serve HttpRouter.blog_router GET_post_slash ["GET"%string]).1 /\
  Method GET_post_slash <> "CONNECT"%string /\
  Path GET_post_slash <> "/"%string.
Proof.
  assert (Hin : EvRedirect "/blog/go/routers" 301
                  ∈ (serve HttpRouter.blog_router GET_post_slash ["GET"%string]).1).
  { change (EvRedirect "/blog/go/routers" 301
              ∈ [EvGetValue "GET" "/blog/go/routers/";
                 EvRedirect "/blog/go/routers" 301]).
    apply elem_of_cons. right. apply elem_of_cons. by left. }
  split; [exact Hin|].
  destruct (redirect_rules string "DefaultServeMux"%string
              (HttpRouter.node string) HttpRouter.getValue no_fix Clean.clean
              "NotFound"%string handled served HttpRouter.blog_router
              GET_post_slash ["GET"%string] "/blog/go/routers" 301 Hin)
    as (H1 & H2 & _).
  by split.
Defined.

Lemma method_not_allowed_rules_witness :
  EvMethodNotAllowed ∈ (serve HttpRouter.blog_router POST_post ["GET"%string]).1 /\
  unmatched HttpRouter.getValue HttpRouter.blog_router POST_post "POST" /\
  (body HttpRouter.blog_router POST_post ["GET"%string]).2
  = method_not_allowed served HttpRouter.blog_router.
Proof.
  assert (Hin : EvMethodNotAllowed
                  ∈ (serve HttpRouter.blog_router POST_post ["GET"%string]).1).
  { change (EvMethodNotAllowed
              ∈ [EvGetValue "GET" "/blog/go/routers"; EvMethodNotAllowed]).
    apply elem_of_cons. right. apply elem_of_cons. by left. }
  split; [exact Hin|].
  destruct (method_not_allowed_rules string "DefaultServeMux"%string
              (HttpRouter.node string) HttpRouter.getValue no_fix Clean.clean
              "NotFound"%string handled served HttpRouter.blog_router POST_post
              ["GET"%string] Hin) as (_ & H1 & _ & H2 & _).
  by split.
Defined.

Lemma not_found_rules_witness :
  EvNotFound ∈ (serve HttpRouter.blog_router GET_other ["GET"%string]).1 /\
  unmatched HttpRouter.getValue HttpRouter.blog_router GET_other "GET" /\
  last (body HttpRouter.blog_router GET_other ["GET"%string]).1
  = Some EvNotFound.
Proof.
  assert (Hin : EvNotFound
                  ∈ (serve HttpRouter.blog_router GET_other ["GET"%string]).1).
  { change (EvNotFound
              ∈ [EvGetValue "GET" "/about"; EvCleanPath "/about";
                 EvFindCaseInsensitivePath "GET" "/about" true; EvNotFound]).
    do 3 (apply elem_of_cons; right). apply elem_of_cons. by left. }
  split; [exact Hin|].
  destruct (not_found_rules string "DefaultServeMux"%string
              (HttpRouter.node string) HttpRouter.getValue no_fix Clean.clean
              "NotFound"%string handled served HttpRouter.blog_router GET_other
              ["GET"%string] Hin) as (H1 & _ & _ & H2).
  by split.
Defined.

Lemma redirects_sent_witness :
  serve HttpRouter.blog_router GET_post_slash ["GET"%string]
  = ([EvGetValue "GET" "/blog/go/routers/"; EvRedirect "/blog/go/routers" 301],
     Go.Return tt).
Proof.
  apply (redirects_sent string "DefaultServeMux"%string
           (HttpRouter.node string) HttpRouter.getValue no_fix Clean.clean
           "NotFound"%string handled served HttpRouter.blog_router
           GET_post_slash ["GET"%string] blog_root None true).
  - reflexivity.
  - reflexivity.
  - discriminate.
  - discriminate.
  - reflexivity.
  - reflexivity.
Defined.

Lemma unanswered_gets_405_or_404_witness :
  last (body HttpRouter.blog_router POST_post ["GET"%string]).1
  = Some EvMethodNotAllowed /\
  (body HttpRouter.blog_router POST_post ["GET"%string]).2
  = method_not_allowed served HttpRouter.blog_router.
Proof.
  apply (unanswered_gets_405_or_404 string "DefaultServeMux"%string
           (HttpRouter.node string) HttpRouter.getValue no_fix Clean.clean
           "NotFound"%string handled served HttpRouter.blog_router POST_post
           ["GET"%string]).
  - reflexivity.
  - intros m Hm _. apply list_elem_of_singleton in Hm. subst m.
    exists blog_root, (Some "post"%string, blog_params, false).
    split; reflexivity.
  - split; [reflexivity|].
    exists "GET"%string, blog_root, "post"%string, blog_params, false.
    split; [apply list_elem_of_singleton; reflexivity|].
    split; [discriminate|]. split; reflexivity.
Defined.

(** With a middleware that returns nil, a request that nothing matches gets
    no 404 answer: the body panics on the nil handler the chain returned. *)
Example not_found_nil_handler :
  body
    (Registration.with_middleware string (HttpRouter.node string)
       HttpRouter.blog_router [Chain.returning (fun _ => None)])
    GET_other ["GET"%string]
  = ([EvGetValue "GET" "/about"; EvCleanPath "/about";
      EvFindCaseInsensitivePath "GET" "/about" true],
     Go.Panic Go.NilDereference).
Proof. reflexivity. Qed.

End Dispatch.
